(** * Screw Your Neighbor: the round engine, embedded and verified

    A shallow embedding of [cards.py], [strategies.py] and the round
    engine of [screw_your_neighbor.py].

    - Python exceptions are values of [PyExn]; a method that mutates an
      object is a function in the monad [M Σ A := Σ → (PyExn + A) * Σ],
      which returns the state reached when the exception was raised.
    - Player objects live in a store indexed by reference ([pid]), so that
      [table.players], [cur_losers] and the arguments of [SYNPlayer.swap]
      can alias as they do in Python.
    - [random.shuffle] is an oracle: a function on decks. *)

From stdpp Require Import base decidable option functions list numbers.

Open Scope Z_scope.

(** ** Exceptions and the state-and-exception monad *)

Inductive PyExn : Type :=
  | IndexError
  | ValueError
  | AttributeError
  | AssertionError
  | ZeroDivisionError
  | NotImplementedError.

Definition M (Σ A : Type) : Type := Σ → (PyExn + A) * Σ.

Definition ret {Σ A} (a : A) : M Σ A := λ s, (inr a, s).

Definition raise {Σ A} (e : PyExn) : M Σ A := λ s, (inl e, s).

Definition bind {Σ A B} (m : M Σ A) (k : A → M Σ B) : M Σ B :=
  λ s, match m s with
       | (inl e, s') => (inl e, s')
       | (inr a, s') => k a s'
       end.

Definition get {Σ} : M Σ Σ := λ s, (inr s, s).

Definition modify {Σ} (f : Σ → Σ) : M Σ unit := λ s, (inr tt, f s).

Notation "'do' x <- m ; k" := (bind m (λ x, k))
  (at level 10, x pattern, m at level 100, k at level 200).
Notation "'do_' m ; k" := (bind m (λ _, k))
  (at level 10, m at level 100, k at level 200).

(** [for x in l: body(x)] *)
Fixpoint for_each {Σ A} (l : list A) (body : A → M Σ unit) : M Σ unit :=
  match l with
  | [] => ret tt
  | x :: l' => do_ body x; for_each l' body
  end.

(** ** cards.py *)

Inductive Rank : Type :=
  | Ace | Two | Three | Four | Five | Six | Seven
  | Eight | Nine | Ten | Jack | Queen | King.

Definition Rank_value (r : Rank) : Z :=
  match r with
  | Ace => 1 | Two => 2 | Three => 3 | Four => 4 | Five => 5
  | Six => 6 | Seven => 7 | Eight => 8 | Nine => 9 | Ten => 10
  | Jack => 11 | Queen => 12 | King => 13
  end.

Global Instance Rank_eq_dec : EqDecision Rank.
Proof. solve_decision. Defined.

(** [Rank.__lt__] *)
Definition Rank_lt (a b : Rank) : bool := Rank_value a <? Rank_value b.

Inductive Suit : Type := Clubs | Diamonds | Hearts | Spades.

Global Instance Suit_eq_dec : EqDecision Suit.
Proof. solve_decision. Defined.

Record Card : Type := mkCard { suit : Suit; rank : Rank }.

Global Instance Card_eq_dec : EqDecision Card.
Proof. solve_decision. Defined.

(** [Card.is_stealable] *)
Definition is_stealable (c : Card) : bool :=
  negb (bool_decide (rank c = King)).

(** [Card.__eq__] *)
Definition Card_eq (c value : Card) : bool :=
  bool_decide (suit c = suit value) && bool_decide (rank c = rank value).

Definition all_suits : list Suit := [Clubs; Diamonds; Hearts; Spades].
Definition all_ranks : list Rank :=
  [Ace; Two; Three; Four; Five; Six; Seven; Eight; Nine; Ten; Jack; Queen; King].

(** [Deck()]: the cards of a fresh deck, top first.  [Deck.cards] is a
    deque; its left end is the top of the deck. *)
Definition full_deck : list Card :=
  s ← all_suits; r ← all_ranks; [mkCard s r].

(** [card in self.cards] *)
Definition deque_contains (card : Card) (cards : list Card) : bool :=
  existsb (λ c, Card_eq c card) cards.

(** [deque.remove(value)]: drops the first element equal to [value];
    [None] stands for the [ValueError] raised when there is none. *)
Fixpoint deque_remove (value : Card) (cards : list Card) : option (list Card) :=
  match cards with
  | [] => None
  | c :: cards' =>
      if Card_eq c value then Some cards'
      else match deque_remove value cards' with
           | Some rest => Some (c :: rest)
           | None => None
           end
  end.

Module Deck.

(** [Deck.shuffle]; the oracle [rng] is the permutation [random.shuffle]
    picks. *)
Definition shuffle (rng : list Card → list Card) : M (list Card) unit :=
  modify rng.

(** [Deck.deal_single]: [popleft] raises [IndexError] on an empty deque. *)
Definition deal_single : M (list Card) Card :=
  λ cards, match cards with
           | [] => (inl IndexError, cards)
           | c :: cards' => (inr c, cards')
           end.

(** [Deck.deal_specific]: the [try] turns the [ValueError] of
    [deque.remove] into the result [None]. *)
Definition deal_specific (s : Suit) (r : Rank) : M (list Card) (option Card) :=
  λ cards, match deque_remove (mkCard s r) cards with
           | Some cards' => (inr (Some (mkCard s r)), cards')
           | None => (inr None, cards)
           end.

(** [Deck.return_card] *)
Definition return_card (card : Card) : M (list Card) unit :=
  λ cards, if deque_contains card cards
           then (inl ValueError, cards)
           else (inr tt, cards ++ [card]).

End Deck.

(** ** screw_your_neighbor.py: players *)

(** A reference to a [SYNPlayer] object. *)
Abbreviation pid := nat (only parsing).

(** The fields of [SYNPlayer] the engine reads or writes.  [current_stack]
    is the integer [join_game] sets; [name] and [playerID] are labels, and
    [_game] is the state the player is stored in. *)
Record SYNPlayer (S : Type) : Type := mkPlayer {
  current_stack : Z;
  orig_card : option Card;
  pre_swap_card : option Card;
  current_card : option Card;
  strategy : S;
  attempted_to_swap : bool;
  target_of_swap : bool
}.
Arguments mkPlayer {S} _ _ _ _ _ _ _.
Arguments current_stack {S} _.
Arguments orig_card {S} _.
Arguments pre_swap_card {S} _.
Arguments current_card {S} _.
Arguments strategy {S} _.
Arguments attempted_to_swap {S} _.
Arguments target_of_swap {S} _.

(** [SYNGameState] with its [SYNTable] reduced to [table.players], the
    list the engine iterates over and indexes (the occupied seats in seat
    order).  [store] holds the player objects. *)
Record SYNGameState (S : Type) : Type := mkState {
  players : list pid;
  store : pid → SYNPlayer S;
  round : Z;
  dealer_button : Z;
  deck : list Card;
  current_low : Rank;
  cur_losers : list pid
}.
Arguments mkState {S} _ _ _ _ _ _ _.
Arguments players {S} _.
Arguments store {S} _.
Arguments round {S} _.
Arguments dealer_button {S} _.
Arguments deck {S} _.
Arguments current_low {S} _.
Arguments cur_losers {S} _.

(** The interface of [strategies.SYNStrat]: [run(player, gamestate)]
    answers [True] to swap.  A strategy reads the state and does not
    write it. *)
Class SYNStrat (S : Type) : Type :=
  strategy_run : S → pid → SYNGameState S → PyExn + bool.

(** The attribute [database] of a [SYNGame].  [SYNGame.__init__] assigns
    it inside [if dbname is not None] only, so the game of
    [SYNGame(name, None)] has no such attribute; a caller may assign
    [None] to it.  Of a [DBInterface] the round calls [add_round_results]
    alone, which reads the game, writes to sqlite and assigns nothing in
    the game: it is given by its outcome, return or exception, at each
    state of the game. *)
Inductive Database (S : Type) : Type :=
  | database_unset
  | database_None
  | DBInterface (add_round_results : SYNGameState S → PyExn + unit).
Arguments database_unset {S}.
Arguments database_None {S}.
Arguments DBInterface {S} add_round_results.

Section Engine.
Context {S : Type} `{!SYNStrat S}.

(** *** Field assignments *)

Definition set_current_stack (v : Z) (p : SYNPlayer S) : SYNPlayer S :=
  mkPlayer v (orig_card p) (pre_swap_card p) (current_card p)
           (strategy p) (attempted_to_swap p) (target_of_swap p).
Definition set_orig_card (v : option Card) (p : SYNPlayer S) : SYNPlayer S :=
  mkPlayer (current_stack p) v (pre_swap_card p) (current_card p)
           (strategy p) (attempted_to_swap p) (target_of_swap p).
Definition set_pre_swap_card (v : option Card) (p : SYNPlayer S) : SYNPlayer S :=
  mkPlayer (current_stack p) (orig_card p) v (current_card p)
           (strategy p) (attempted_to_swap p) (target_of_swap p).
Definition set_current_card (v : option Card) (p : SYNPlayer S) : SYNPlayer S :=
  mkPlayer (current_stack p) (orig_card p) (pre_swap_card p) v
           (strategy p) (attempted_to_swap p) (target_of_swap p).
Definition set_attempted_to_swap (v : bool) (p : SYNPlayer S) : SYNPlayer S :=
  mkPlayer (current_stack p) (orig_card p) (pre_swap_card p) (current_card p)
           (strategy p) v (target_of_swap p).
Definition set_target_of_swap (v : bool) (p : SYNPlayer S) : SYNPlayer S :=
  mkPlayer (current_stack p) (orig_card p) (pre_swap_card p) (current_card p)
           (strategy p) (attempted_to_swap p) v.

Definition set_store (v : pid → SYNPlayer S) (st : SYNGameState S) : SYNGameState S :=
  mkState (players st) v (round st) (dealer_button st) (deck st)
          (current_low st) (cur_losers st).
Definition set_round (v : Z) (st : SYNGameState S) : SYNGameState S :=
  mkState (players st) (store st) v (dealer_button st) (deck st)
          (current_low st) (cur_losers st).
Definition set_dealer_button (v : Z) (st : SYNGameState S) : SYNGameState S :=
  mkState (players st) (store st) (round st) v (deck st)
          (current_low st) (cur_losers st).
Definition set_deck (v : list Card) (st : SYNGameState S) : SYNGameState S :=
  mkState (players st) (store st) (round st) (dealer_button st) v
          (current_low st) (cur_losers st).
Definition set_current_low (v : Rank) (st : SYNGameState S) : SYNGameState S :=
  mkState (players st) (store st) (round st) (dealer_button st) (deck st)
          v (cur_losers st).
Definition set_cur_losers (v : list pid) (st : SYNGameState S) : SYNGameState S :=
  mkState (players st) (store st) (round st) (dealer_button st) (deck st)
          (current_low st) v.

(** Assignment to a field of the object behind a reference. *)
Definition update_player (p : pid) (f : SYNPlayer S → SYNPlayer S)
    (st : SYNGameState S) : SYNGameState S :=
  set_store (<[p := f (store st p)]> (store st)) st.

(** *** Methods of [SYNPlayer] that take a deck

    They act on the pair of [self] and the [deck] argument. *)

Definition on_deck {A} (m : M (list Card) A) : M (SYNPlayer S * list Card) A :=
  λ '(self, cards), let '(r, cards') := m cards in (r, (self, cards')).

Definition on_self (f : SYNPlayer S → SYNPlayer S) : M (SYNPlayer S * list Card) unit :=
  modify (λ '(self, cards), (f self, cards)).

(** [SYNPlayer.discard] *)
Definition discard : M (SYNPlayer S * list Card) bool :=
  do (self, _) <- get;
  match current_card self with
  | None => ret false
  | Some c =>
      do_ on_deck (Deck.return_card c);
      do_ on_self (set_current_card None);
      ret true
  end.

(** [SYNPlayer.draw] *)
Definition draw (replace : bool) : M (SYNPlayer S * list Card) unit :=
  do (self, _) <- get;
  match current_card self with
  | None =>
      do c <- on_deck Deck.deal_single;
      do_ on_self (set_current_card (Some c));
      on_self (λ self, set_orig_card (current_card self) self)
  | Some _ =>
      if replace then
        do_ discard;
        do c <- on_deck Deck.deal_single;
        on_self (set_current_card (Some c))
      else ret tt
  end.

(** [SYNPlayer.draw_specific] *)
Definition draw_specific (s : Suit) (r : Rank) : M (SYNPlayer S * list Card) unit :=
  do (self, _) <- get;
  do_ (match current_card self with
       | Some _ => do_ discard; ret tt
       | None => ret tt
       end);
  do c <- on_deck (Deck.deal_specific s r);
  on_self (set_current_card c).

(** [SYNPlayer.begin_turn]; the deck is [self._game.deck]. *)
Definition begin_turn : M (SYNPlayer S * list Card) unit :=
  do_ on_self (set_orig_card None);
  do_ on_self (set_current_card None);
  do_ on_self (set_attempted_to_swap false);
  do_ on_self (set_target_of_swap false);
  draw false.

(** *** Methods at the level of the game state *)

(** Calls a method of player [p] with the deck of the game. *)
Definition with_player {A} (p : pid) (m : M (SYNPlayer S * list Card) A)
    : M (SYNGameState S) A :=
  λ st, let '(r, (self', cards')) := m (store st p, deck st) in
        (r, set_deck cards' (update_player p (λ _, self') st)).

Definition lift_exn {Σ A} (r : PyExn + A) : M Σ A := λ s, (r, s).

(** [SYNPlayer.take_turn] *)
Definition take_turn (p : pid) : M (SYNGameState S) bool :=
  do st <- get;
  do b <- lift_exn (strategy_run (strategy (store st p)) p st);
  do_ modify (update_player p (set_attempted_to_swap b));
  do_ modify (update_player p (λ self, set_pre_swap_card (current_card self) self));
  do st' <- get;
  ret (attempted_to_swap (store st' p)).

(** [SYNPlayer.can_be_stolen_from] *)
Definition can_be_stolen_from (p : pid) : M (SYNGameState S) bool :=
  do st <- get;
  match current_card (store st p) with
  | None => raise AttributeError
  | Some c => ret (is_stealable c)
  end.

(** [SYNPlayer.swap] *)
Definition swap (player1 player2 : pid) : M (SYNGameState S) unit :=
  do st <- get;
  let temp := current_card (store st player1) in
  do_ modify (λ st, update_player player1
                      (set_current_card (current_card (store st player2))) st);
  do_ modify (update_player player2 (set_current_card temp));
  modify (update_player player2 (set_target_of_swap true)).

(** [SYNPlayer.get_relative_pos]; [list.index] raises [ValueError] when
    the player is not seated. *)
Definition get_relative_pos (p : pid) (st : SYNGameState S) : PyExn + Z :=
  match list_find (λ q, q = p) (players st) with
  | None => inl ValueError
  | Some (my_pos, _) =>
      let players_cnt := Z.of_nat (length (players st)) in
      let rel_pos := (Z.of_nat my_pos - 1 - dealer_button st) `mod` players_cnt in
      inr (if rel_pos <? 0 then players_cnt + rel_pos else rel_pos)
  end.

(** *** [SYNGameState] *)

(** The second loop of [start_round], one player: the lowest rank dealt,
    kept for the strategies that look at it. *)
Definition note_low (player : pid) : M (SYNGameState S) unit :=
  do st <- get;
  match current_card (store st player) with
  | None => raise AttributeError
  | Some c =>
      if Rank_lt (rank c) (current_low st)
      then modify (set_current_low (rank c))
      else ret tt
  end.

(** [SYNGameState.start_round] *)
Definition start_round (rng : list Card → list Card) : M (SYNGameState S) unit :=
  do st <- get;
  if bool_decide (length (deck st) = 52%nat) then
    do_ modify (set_cur_losers []);
    do_ modify (set_current_low King);
    do_ modify (λ st, set_deck (rng (deck st)) st);
    do_ for_each (players st) (λ player, with_player player begin_turn);
    for_each (players st) note_low
  else raise AssertionError.

(** The loop of [collect_all_hands], one player. *)
Definition collect_hand (player : pid) : M (SYNGameState S) unit :=
  do st <- get;
  match current_card (store st player) with
  | Some _ => do _ <- with_player player discard; ret tt
  | None => ret tt
  end.

(** [SYNGameState.collect_all_hands] *)
Definition collect_all_hands : M (SYNGameState S) unit :=
  do st <- get;
  for_each (players st) collect_hand.

(** [self.table.players[seat]] *)
Definition player_at (seat : Z) : M (SYNGameState S) pid :=
  do st <- get;
  match players st !! Z.to_nat seat with
  | Some p => ret p
  | None => raise IndexError
  end.

(** [cur_seat] and [next_seat] at iteration [i] of [process_turns]. *)
Definition seat_to_act (first_player num_players i : Z) : Z :=
  (first_player + i + 1) `mod` num_players.
Definition seat_after (cur_seat num_players : Z) : Z :=
  (cur_seat + 1) `mod` num_players.

(** The body of the loop of [process_turns], at iteration [i]. *)
Definition turn (first_player num_players i : Z) : M (SYNGameState S) unit :=
  let cur_seat := seat_to_act first_player num_players i in
  let next_seat := seat_after cur_seat num_players in
  do cur_player <- player_at cur_seat;
  do next_player <- player_at next_seat;
  do swap_requested <- take_turn cur_player;
  if swap_requested then
    do st <- get;
    if bool_decide (cur_seat = dealer_button st) then
      with_player cur_player (draw true)
    else
      do stealable <- can_be_stolen_from next_player;
      if stealable then swap cur_player next_player else ret tt
  else ret tt.

(** [range(n)] *)
Definition range (n : nat) : list Z := Z.of_nat <$> seq 0 n.

(** [SYNGameState.process_turns] *)
Definition process_turns : M (SYNGameState S) unit :=
  do st <- get;
  let num_players := Z.of_nat (length (players st)) in
  if num_players <? 2 then raise ValueError
  else
    let first_player := dealer_button st in
    for_each (range (length (players st))) (turn first_player num_players).

(** The first loop of [calculate_results], one player. *)
Definition tally (player : pid) : M (SYNGameState S) unit :=
  do st <- get;
  match current_card (store st player) with
  | None => raise AttributeError
  | Some c =>
      if bool_decide (rank c = current_low st) then
        modify (λ st, set_cur_losers (cur_losers st ++ [player]) st)
      else if Rank_lt (rank c) (current_low st) then
        do_ modify (set_current_low (rank c));
        modify (set_cur_losers [player])
      else ret tt
  end.

(** The [tiegame] flag of [calculate_results]: it starts [True] and is
    cleared only inside [if self.cur_losers == self.table.players], by the
    first loser whose stack is not 0. *)
Definition tiegame (st : SYNGameState S) : bool :=
  if bool_decide (cur_losers st = players st)
  then negb (existsb (λ player, negb (current_stack (store st player) =? 0))
               (cur_losers st))
  else true.

(** [player.current_stack -= 1] *)
Definition lose_stake (player : pid) : M (SYNGameState S) unit :=
  modify (update_player player
            (λ self, set_current_stack (current_stack self - 1) self)).

(** [SYNGameState.calculate_results] *)
Definition calculate_results (practice_round : bool)
    : M (SYNGameState S) (Rank * list pid) :=
  do_ modify (set_current_low King);
  do st <- get;
  do_ for_each (players st) tally;
  do_ (if negb practice_round then
         do st <- get;
         if negb (tiegame st) then for_each (cur_losers st) lose_stake
         else ret tt
       else ret tt);
  do st <- get;
  ret (current_low st, cur_losers st).

(** [SYNGameState.advance_round] *)
Definition advance_round (practice_round : bool) : M (SYNGameState S) unit :=
  do_ modify (λ st, set_round (round st + 1) st);
  if negb practice_round then
    do st <- get;
    if bool_decide (length (players st) = 0%nat) then raise ZeroDivisionError
    else modify (set_dealer_button
                   ((dealer_button st + 1) `mod` Z.of_nat (length (players st))))
  else ret tt.

(** [if self.database is not None: self.database.add_round_results(self)]
    in [play_a_round]: reading an attribute that was never assigned raises
    [AttributeError]. *)
Definition record_round (database : Database S) : M (SYNGameState S) unit :=
  match database with
  | database_unset => raise AttributeError
  | database_None => ret tt
  | DBInterface add_round_results =>
      do st <- get;
      lift_exn (add_round_results st)
  end.

(** [SYNGame.play_a_round] *)
Definition play_a_round (database : Database S) (rng : list Card → list Card)
    (practice_round : bool) : M (SYNGameState S) unit :=
  do_ start_round rng;
  do_ process_turns;
  do (lowcard, losers) <- calculate_results practice_round;
  do_ modify (set_cur_losers losers);
  do_ record_round database;
  do_ collect_all_hands;
  advance_round practice_round.

(** *** strategies.py *)

(** The loop of [SYNStrat_cheater_villain.run] over [table.players]. *)
Fixpoint cheater_scan (opponents : list pid) (player : pid)
    (gamestate : SYNGameState S) : PyExn + bool :=
  match opponents with
  | [] => inr true
  | opponent :: rest =>
      if bool_decide (opponent ≠ player) then
        match current_card (store gamestate opponent),
              current_card (store gamestate player) with
        | Some oc, Some pc =>
            if Rank_lt (rank oc) (rank pc) then inr false
            else cheater_scan rest player gamestate
        | _, _ => inl AttributeError
        end
      else cheater_scan rest player gamestate
  end.

(** [SYNStrat_cheater_villain.run] *)
Definition cheater_villain_run (player : pid) (gamestate : SYNGameState S)
    : PyExn + bool :=
  cheater_scan (players gamestate) player gamestate.

(** [naive_pass_if_low] *)
Definition naive_pass_if_low (player : pid) (lowest_to_keep : Z)
    (gamestate : SYNGameState S) : PyExn + bool :=
  match current_card (store gamestate player) with
  | None => inl AttributeError
  | Some c => inr (if Rank_value (rank c) >=? lowest_to_keep then false else true)
  end.

(** [SYNStrat_naive_firstonly.run] *)
Definition naive_firstonly_run (lowest_to_keep : Z) (player : pid)
    (gamestate : SYNGameState S) : PyExn + bool :=
  match get_relative_pos player gamestate with
  | inl e => inl e
  | inr myseat =>
      if myseat =? 0 then naive_pass_if_low player lowest_to_keep gamestate
      else inl NotImplementedError
  end.

End Engine.

(** The strategies of [strategies.py]: the abstract base class and its two
    subclasses. *)
Inductive Strategy : Type :=
  | SYNStrat_base
  | SYNStrat_cheater_villain
  | SYNStrat_naive_firstonly (lowest_to_keep : Z).

Global Instance Strategy_run : SYNStrat Strategy := λ s player gamestate,
  match s with
  | SYNStrat_base => inl NotImplementedError
  | SYNStrat_cheater_villain => cheater_villain_run player gamestate
  | SYNStrat_naive_firstonly lowest_to_keep =>
      naive_firstonly_run lowest_to_keep player gamestate
  end.

(** ** cards.py: comparisons, construction and [Deck.deal] *)

(** [Rank.__le__], [Rank.__gt__] and [Rank.__ge__] *)
Definition Rank_le (a b : Rank) : bool := Rank_value a <=? Rank_value b.
Definition Rank_gt (a b : Rank) : bool := Rank_value a >? Rank_value b.
Definition Rank_ge (a b : Rank) : bool := Rank_value a >=? Rank_value b.

(** The values of the enumeration [Suit]. *)
Definition Suit_value (s : Suit) : Z :=
  match s with Clubs => 1 | Diamonds => 2 | Hearts => 3 | Spades => 4 end.

(** [Deck(empty)]: the cards after [Deck.__init__]. *)
Definition Deck_init (empty : bool) : list Card :=
  if negb empty then s ← all_suits; r ← all_ranks; [mkCard s r] else [].

(** The inner loop of [Deck.deal]: one card to each hand, in order. *)
Fixpoint deal_round (hands : list (list Card)) : M (list Card) (list (list Card)) :=
  match hands with
  | [] => ret []
  | hand :: hands' =>
      do card <- Deck.deal_single;
      do rest <- deal_round hands';
      ret ((hand ++ [card]) :: rest)
  end.

(** The outer loop of [Deck.deal]: [for i in range(handsize)]. *)
Fixpoint deal_rounds (handsize : nat) (hands : list (list Card))
    : M (list Card) (list (list Card)) :=
  match handsize with
  | O => ret hands
  | S handsize' => do hands' <- deal_round hands; deal_rounds handsize' hands'
  end.

(** The first loop of [Deck.deal], [for i in range(players)]: each
    iteration reads [self.nodeque].  [Deck.__init__] does not set that
    attribute, so [nodeque] is [None] unless a caller has assigned it;
    reading it then raises [AttributeError].  Either value appends an empty
    hand. *)
Fixpoint create_hands (nodeque : option bool) (players : nat)
    : PyExn + list (list Card) :=
  match players with
  | O => inr []
  | S players' =>
      match nodeque with
      | None => inl AttributeError
      | Some _ =>
          match create_hands nodeque players' with
          | inl e => inl e
          | inr hands => inr (hands ++ [[]])
          end
      end
  end.

(** [Deck.deal] *)
Definition Deck_deal (nodeque : option bool) (players handsize : Z)
    : M (list Card) (list (list Card)) :=
  do cards <- get;
  if players * handsize >? Z.of_nat (length cards) then raise ValueError
  else
    do hands <- lift_exn (create_hands nodeque (Z.to_nat players));
    deal_rounds (Z.to_nat handsize) hands.

(** ** screw_your_neighbor.py: the table *)

Module Table.

(** [SYNTable] *)
Record SYNTable : Type := mk {
  num_seats : Z;
  num_players : Z;
  seats : list (option pid);
  players : list pid
}.

(** [SYNTable.__init__]: [[None] * num_seats] is empty for a negative
    [num_seats]. *)
Definition init (num_seats : Z) : SYNTable :=
  mk num_seats 0 (replicate (Z.to_nat num_seats) None) [].

(** What [add_player] raises: the [Exception] for a seat past the end, and
    the [IndexError] of [self.seats[seat]] for a seat below [-len]. *)
Inductive Exn : Type := SeatDoesNotExist | SeatIndexError.

(** A Python index into a list of length [len]: negative indices count
    from the end. *)
Definition py_index (len seat : Z) : option nat :=
  if 0 <=? seat then (if seat <? len then Some (Z.to_nat seat) else None)
  else if 0 <=? len + seat then Some (Z.to_nat (len + seat)) else None.

(** [SYNTable.add_player]; the warning printed for an occupied seat is
    not part of the state.  Both exceptions are raised before any
    assignment. *)
Definition add_player (player : pid) (seat : Z) (t : SYNTable) : Exn + SYNTable :=
  if seat >=? Z.of_nat (length (seats t)) then inl SeatDoesNotExist
  else
    match py_index (Z.of_nat (length (seats t))) seat with
    | None => inl SeatIndexError
    | Some i =>
        let seats' := <[i := Some player]> (seats t) in
        let players' := omap id seats' in
        inr (mk (num_seats t) (Z.of_nat (length players')) seats' players')
    end.

End Table.

(** The tables a program builds: a new table, then calls of
    [add_player] that return. *)
Inductive built_table : Table.SYNTable → Prop :=
  | built_init (num_seats : Z) : built_table (Table.init num_seats)
  | built_add_player (t t' : Table.SYNTable) (player : pid) (seat : Z) :
      built_table t → Table.add_player player seat t = inr t' → built_table t'.

Section Seating.
Context {S : Type}.

(** [SYNPlayer.join_game]: the stack of a player who joins. *)
Definition join_game (stack : Z) (self : SYNPlayer S) : SYNPlayer S :=
  set_current_stack stack self.

(** [SYNGameState.add_player] on the table of a game and its state:
    [self.table.add_player(player, seat)], then [player.join_game(self)]
    with the default stack of 4. *)
Definition add_player (player : pid) (seat : Z)
    (g : Table.SYNTable * SYNGameState S)
    : Table.Exn + Table.SYNTable * SYNGameState S :=
  match Table.add_player player seat (fst g) with
  | inl e => inl e
  | inr t' =>
      inr (t', update_player player (join_game 4)
                 (mkState (Table.players t') (store (snd g)) (round (snd g))
                    (dealer_button (snd g)) (deck (snd g))
                    (current_low (snd g)) (cur_losers (snd g))))
  end.

End Seating.

(** ** What the claims observe *)

Section Observations.
Context {S : Type}.

(** The rank of the card a player holds. *)
Definition held_rank (st : SYNGameState S) (p : pid) : option Rank :=
  rank <$> current_card (store st p).

(** Every seated player holds a card. *)
Definition all_hold (st : SYNGameState S) : Prop :=
  ∀ p, p ∈ players st → is_Some (current_card (store st p)).

(** The cards the seated players hold, in seat order. *)
Definition held_cards (st : SYNGameState S) : list Card :=
  omap (λ p, current_card (store st p)) (players st).

(** The cards in hands and in the deck are the 52 cards, one of each. *)
Definition closed_system (st : SYNGameState S) : Prop :=
  held_cards st ++ deck st ≡ₚ full_deck.

(** [player]'s rank is strictly below the rank of every other seated
    player. *)
Definition strictly_lowest (st : SYNGameState S) (player : pid) : Prop :=
  ∀ q r r', q ∈ players st → q ≠ player →
    held_rank st player = Some r → held_rank st q = Some r' →
    Rank_value r < Rank_value r'.

(** Some other seated player holds a rank strictly below [player]'s. *)
Definition undercut (st : SYNGameState S) (player : pid) : Prop :=
  ∃ q r r', q ∈ players st ∧ q ≠ player ∧
    held_rank st player = Some r ∧ held_rank st q = Some r' ∧
    Rank_value r' < Rank_value r.

End Observations.

(** ** Invariants of the loops and of the round *)

Section Invariants.
Context {S : Type}.

(** The state after the first loop of [calculate_results] has visited a
    prefix of the players. *)
Definition tallied (st : SYNGameState S) (visited : list pid)
    (s : SYNGameState S) : Prop :=
  s = set_cur_losers (cur_losers s) (set_current_low (current_low s) st) ∧
  cur_losers s = filter (λ p, held_rank st p = Some (current_low s)) visited ∧
  (∀ p r, p ∈ visited → held_rank st p = Some r →
     Rank_value (current_low s) ≤ Rank_value r) ∧
  (current_low s = King ∨
   ∃ p, p ∈ visited ∧ held_rank st p = Some (current_low s)).

(** The state while [start_round] deals, after the players [visited]. *)
Definition dealing (st : SYNGameState S) (rng : list Card → list Card)
    (visited : list pid) (s : SYNGameState S) : Prop :=
  players s = players st ∧ dealer_button s = dealer_button st ∧
  cur_losers s = [] ∧
  ∃ dealt, rng (deck st) = dealt ++ deck s ∧
    (λ p, current_card (store s p)) <$> visited = Some <$> dealt.

(** What every phase after the deal keeps: the seating, the button and
    the losers' list aside, every player holds a card and hands and deck
    are the 52 cards. *)
Definition in_round (st s : SYNGameState S) : Prop :=
  players s = players st ∧ dealer_button s = dealer_button st ∧
  all_hold s ∧ closed_system s.

(** The state while [process_turns] runs, after [k] turns.  The players
    who have acted have [pre_swap_card] set: it is the card they held when
    the loop began unless they were the target of a swap, and it is the
    card they hold unless they attempted to swap.  The players still to
    act hold the card they held when the loop began unless they were the
    target of a swap.  Nobody's [orig_card] has changed. *)
Definition turns_taken (st : SYNGameState S) (k : Z)
    (s : SYNGameState S) : Prop :=
  in_round st s ∧
  ∀ j p, 0 ≤ j < Z.of_nat (length (players st)) →
    players st
      !! Z.to_nat (seat_to_act (dealer_button st)
                     (Z.of_nat (length (players st))) j)
      = Some p →
    orig_card (store s p) = orig_card (store st p) ∧
    if bool_decide (j < k) then
      is_Some (pre_swap_card (store s p)) ∧
      (target_of_swap (store s p) = false →
         pre_swap_card (store s p) = current_card (store st p)) ∧
      (attempted_to_swap (store s p) = false →
         current_card (store s p) = pre_swap_card (store s p))
    else
      target_of_swap (store s p) = false →
      current_card (store s p) = current_card (store st p).

(** The state while [collect_all_hands] runs, after the players
    [visited]. *)
Definition collecting (st : SYNGameState S) (visited : list pid)
    (s : SYNGameState S) : Prop :=
  s = set_deck (deck s) (set_store (store s) st) ∧
  deck s = deck st ++ omap (λ p, current_card (store st p)) visited ∧
  (∀ p, p ∈ visited → current_card (store s p) = None) ∧
  (∀ p, p ∉ visited → current_card (store s p) = current_card (store st p)).

(** What the phases other than settlement leave alone: who is seated,
    where the button is, and the stack and the strategy of every
    player. *)
Definition keeps_stakes (st s : SYNGameState S) : Prop :=
  players s = players st ∧ dealer_button s = dealer_button st ∧
  ∀ p, current_stack (store s p) = current_stack (store st p) ∧
       strategy (store s p) = strategy (store st p).

End Invariants.

(** ** Concrete players and tables *)

(** A player who has joined a game: [stack] chips and, when inside a
    round, the card dealt. *)
Definition seated (strat : Strategy) (stack : Z) (card : option Card)
    : SYNPlayer Strategy :=
  mkPlayer stack card None card strat false false.

(** A store holding the given players at references 0, 1, ... *)
Definition store_of (ps : list (SYNPlayer Strategy)) : pid → SYNPlayer Strategy :=
  λ p, nth p ps (mkPlayer 0 None None None SYNStrat_base false false).

(** A table inside a round: the players at references 0, 1, ... hold
    [hands], have [stack] chips each and all play the cheater strategy;
    the deck holds the other cards. *)
Definition table_of (hands : list Card) (stack button : Z)
    : SYNGameState Strategy :=
  mkState (seq 0 (length hands))
          (store_of ((λ c, seated SYNStrat_cheater_villain stack (Some c)) <$> hands))
          0 button
          (filter (λ c, c ∉ hands) full_deck)
          King [].

(** A table before its first round: [n] cheaters with [stack] chips and
    no card, and the deck of [Deck()]. *)
Definition fresh_table (n : nat) (stack button : Z) : SYNGameState Strategy :=
  mkState (seq 0 n)
          (store_of (replicate n
             (mkPlayer stack None None None SYNStrat_cheater_villain false false)))
          0 button full_deck King [].



(** ** Proof support *)

(** Unfolds the monad and the methods of players and decks, one layer. *)
Ltac msimpl :=
  cbv beta iota zeta delta
    [bind ret get modify raise lift_exn on_deck on_self
     draw discard begin_turn draw_specific
     Deck.return_card Deck.deal_single Deck.deal_specific Deck.shuffle].

(** Unfolds the field assignments, then computes the fields read. *)
Ltac rsimpl :=
  unfold update_player, set_store, set_round, set_dealer_button, set_deck,
    set_current_low, set_cur_losers, set_current_stack, set_orig_card,
    set_pre_swap_card, set_current_card, set_attempted_to_swap,
    set_target_of_swap in *;
  simpl in *.

(** Unfolds the monad only. *)
Ltac mstep :=
  cbv beta iota zeta delta [bind ret get modify raise lift_exn].

(** Unfolds the assignments to fields of the game state only. *)
Ltac usimpl :=
  unfold update_player, set_store, set_round, set_dealer_button, set_deck,
    set_current_low, set_cur_losers in *;
  simpl in *.

(** Reads of the store after writes. *)
Ltac lookups :=
  repeat first
    [ rewrite fn_lookup_insert
    | rewrite fn_lookup_insert_ne by done ];
  cbn.

(** *** Loops *)

Section Loops.
Context {Σ A : Type}.
Implicit Types (body : A → M Σ unit) (l : list A) (s : Σ).

(** A loop whose body never raises runs to its end, and an invariant of
    the prefix already visited holds of the whole list then. *)
Lemma for_each_total (I : list A → Σ → Prop) body l s :
  I [] s →
  (∀ visited x rest s, l = visited ++ x :: rest → I visited s →
     ∃ s', body x s = (inr tt, s') ∧ I (visited ++ [x]) s') →
  ∃ s', for_each l body s = (inr tt, s') ∧ I l s'.
Proof.
  intros Hinit Hstep.
  cut (∀ rest visited s, l = visited ++ rest → I visited s →
         ∃ s', for_each rest body s = (inr tt, s') ∧ I l s').
  { intros Hgen. by apply (Hgen l []). }
  clear s Hinit. intros rest. induction rest as [|x rest IH]; intros visited s El Hv.
  - rewrite app_nil_r in El. subst. by exists s.
  - destruct (Hstep visited x rest s El Hv) as (s1 & Hb & Hv1).
    destruct (IH (visited ++ [x]) s1) as (s' & Hrun & Hl); [|done|].
    { by rewrite <- app_assoc. }
    exists s'. split; [|done]. simpl. unfold bind. by rewrite Hb.
Qed.

(** The same for a loop that ran to its end, whatever its body may do
    elsewhere. *)
Lemma for_each_partial (I : list A → Σ → Prop) body l s s' :
  for_each l body s = (inr tt, s') →
  I [] s →
  (∀ visited x rest s s', l = visited ++ x :: rest → I visited s →
     body x s = (inr tt, s') → I (visited ++ [x]) s') →
  I l s'.
Proof.
  intros Hrun Hinit Hstep.
  cut (∀ rest visited s, l = visited ++ rest → I visited s →
         for_each rest body s = (inr tt, s') → I l s').
  { intros Hgen. by apply (Hgen l [] s). }
  clear s Hrun Hinit. intros rest.
  induction rest as [|x rest IH]; intros visited s El Hv Hrun.
  - rewrite app_nil_r in El. subst. by injection Hrun as <-.
  - simpl in Hrun. unfold bind in Hrun.
    destruct (body x s) as [[e|[]] s1] eqn:Hb; [done|].
    apply (IH (visited ++ [x]) s1); [by rewrite <- app_assoc| |done].
    by apply (Hstep visited x rest s s1).
Qed.

End Loops.

(** *** Lists *)

Lemma filter_none {A} (P : A → Prop) `{!∀ x, Decision (P x)} (l : list A) :
  (∀ x, x ∈ l → ¬ P x) → filter P l = [].
Proof.
  induction l as [|x l IH]; intros Hl; [done|].
  rewrite filter_cons_False by (apply Hl; by left).
  apply IH. intros y Hy. apply Hl. by right.
Qed.

(** *** Facts about cards and decks *)

Lemma Card_eq_spec (c d : Card) : Card_eq c d = true ↔ c = d.
Proof.
  unfold Card_eq. rewrite andb_true_iff, !bool_decide_eq_true.
  destruct c, d; simpl. split; [intros [-> ->] | intros [= -> ->]]; done.
Qed.

Lemma deque_contains_spec (card : Card) (cards : list Card) :
  deque_contains card cards = true ↔ card ∈ cards.
Proof.
  unfold deque_contains. rewrite existsb_exists. split.
  - intros (c & Hin & Heq). apply Card_eq_spec in Heq as ->.
    by apply list_elem_of_In.
  - intros Hin. exists card. split; [by apply list_elem_of_In|].
    by apply Card_eq_spec.
Qed.

Lemma deque_contains_false (card : Card) (cards : list Card) :
  deque_contains card cards = false ↔ card ∉ cards.
Proof.
  rewrite <- deque_contains_spec. destruct (deque_contains card cards); naive_solver.
Qed.

Lemma deque_remove_None (value : Card) (cards : list Card) :
  deque_remove value cards = None ↔ value ∉ cards.
Proof.
  induction cards as [|c cards IH]; simpl.
  - split; [intros _; apply not_elem_of_nil | done].
  - rewrite not_elem_of_cons. destruct (Card_eq c value) eqn:E.
    + apply Card_eq_spec in E as ->. split; [done | intros []; done].
    + assert (value ≠ c) by (intros ->; by rewrite (proj2 (Card_eq_spec c c)) in E).
      destruct (deque_remove value cards); split; intros; intuition congruence.
Qed.

Lemma deque_remove_Some (value : Card) (cards rest : list Card) :
  deque_remove value cards = Some rest →
  ∃ before after,
    cards = before ++ (value :: after) ∧ rest = before ++ after ∧ value ∉ before.
Proof.
  revert rest. induction cards as [|c cards IH]; simpl; [done|].
  intros rest. destruct (Card_eq c value) eqn:E.
  - apply Card_eq_spec in E as ->. intros [= <-].
    exists [], cards. split_and!; [done..|apply not_elem_of_nil].
  - assert (value ≠ c) by (intros ->; by rewrite (proj2 (Card_eq_spec c c)) in E).
    destruct (deque_remove value cards) as [rest'|]; [|done].
    intros [= <-]. destruct (IH rest' eq_refl) as (b & a & -> & -> & Hb).
    exists (c :: b), a. split_and!; [done..|]. by apply not_elem_of_cons.
Qed.

Lemma full_deck_length : length full_deck = 52%nat.
Proof. reflexivity. Qed.

Lemma full_deck_NoDup : NoDup full_deck.
Proof. apply (bool_decide_unpack _). vm_compute. exact I. Qed.

Lemma full_deck_complete (c : Card) : c ∈ full_deck.
Proof.
  destruct c as [s r].
  destruct s, r; apply (bool_decide_unpack _); vm_compute; exact I.
Qed.

(** ** Card and deck operations *)

Section DeckOps.
Context {S : Type}.

(** C8.  [deal_specific] on a deck that lacks the named card answers
    [None] without raising and leaves the deck as it was; on a deck that
    has it, the first copy is taken out and a card equal to the named
    one is the result. *)
Theorem deal_specific_spec (s : Suit) (r : Rank) (cards : list Card) :
  (mkCard s r ∉ cards →
     Deck.deal_specific s r cards = (inr None, cards)) ∧
  (mkCard s r ∈ cards →
     ∃ before after,
       cards = before ++ (mkCard s r :: after) ∧ (mkCard s r ∉ before) ∧
       Deck.deal_specific s r cards
         = (inr (Some (mkCard s r)), before ++ after)).
Proof.
  unfold Deck.deal_specific. split; intros Hc.
  - apply deque_remove_None in Hc. by rewrite Hc.
  - destruct (deque_remove (mkCard s r) cards) as [rest|] eqn:E.
    + destruct (deque_remove_Some _ _ _ E) as (b & a & -> & -> & Hb).
      by exists b, a.
    + apply deque_remove_None in E. done.
Qed.

(** C9.  [return_card] puts a card that the deck does not hold at the
    bottom; for a card the deck already holds it raises [ValueError]
    ("Card already exists in deck!") and the deck keeps its cards. *)
Theorem return_card_spec (card : Card) (cards : list Card) :
  (card ∉ cards → Deck.return_card card cards = (inr tt, cards ++ [card])) ∧
  (card ∈ cards → Deck.return_card card cards = (inl ValueError, cards)).
Proof.
  unfold Deck.return_card. split; intros Hc.
  - apply deque_contains_false in Hc. by rewrite Hc.
  - apply deque_contains_spec in Hc. by rewrite Hc.
Qed.

(** [draw] with [replace=False] by a player who holds a card. *)
Lemma draw_keep (self : SYNPlayer S) (cards : list Card) (c : Card) :
  current_card self = Some c →
  draw false (self, cards) = (inr tt, (self, cards)).
Proof. intros Hc. msimpl. by rewrite Hc. Qed.

(** [draw] by a player who holds no card. *)
Lemma draw_fresh (self : SYNPlayer S) (top : Card) (rest : list Card)
    (replace : bool) :
  current_card self = None →
  draw replace (self, top :: rest)
    = (inr tt, (set_orig_card (Some top) (set_current_card (Some top) self), rest)).
Proof. intros Hc. msimpl. by rewrite Hc. Qed.

(** [draw] with [replace=True] by a player who holds a card that is not
    in the deck. *)
Lemma draw_replace (self : SYNPlayer S) (cards : list Card) (c : Card) :
  current_card self = Some c → c ∉ cards →
  ∃ top rest, cards ++ [c] = top :: rest ∧
    draw true (self, cards) = (inr tt, (set_current_card (Some top) self, rest)).
Proof.
  intros Hc Hnin. apply deque_contains_false in Hnin.
  destruct (cards ++ [c]) as [|top rest] eqn:E.
  { by destruct cards. }
  exists top, rest. split; [done|].
  msimpl. rewrite Hc. msimpl. rewrite Hc. msimpl. rewrite Hnin, E. done.
Qed.

(** C10.  [draw] by a player who holds a card, with [replace=False],
    changes neither the player (held card, [orig_card]) nor the deck.
    A player without a card takes the top card and records it as
    [orig_card].  With [replace=True] a held card goes to the bottom and
    the top card replaces it, [orig_card] staying as it was.  Whatever
    the outcome, a player who held a card keeps the [orig_card], and one
    who called with [replace=False] keeps the card and the deck. *)
Theorem draw_spec (self : SYNPlayer S) (cards : list Card) (replace : bool) :
  (∀ c, current_card self = Some c → replace = false →
     draw replace (self, cards) = (inr tt, (self, cards))) ∧
  (∀ top rest, current_card self = None → cards = top :: rest →
     draw replace (self, cards)
       = (inr tt, (set_orig_card (Some top) (set_current_card (Some top) self), rest))) ∧
  (∀ c, current_card self = Some c → replace = true → c ∉ cards →
     ∃ top rest, cards ++ [c] = top :: rest ∧
       draw replace (self, cards)
         = (inr tt, (set_current_card (Some top) self, rest))) ∧
  (∀ c r self' cards', current_card self = Some c →
     draw replace (self, cards) = (r, (self', cards')) →
     orig_card self' = orig_card self ∧
     (replace = false → self' = self ∧ cards' = cards)).
Proof.
  split_and!.
  - intros c Hc ->. by apply (draw_keep _ _ c).
  - intros top rest Hc ->. by apply draw_fresh.
  - intros c Hc -> Hnin. by apply draw_replace.
  - intros c r self' cards' Hc. msimpl. rewrite Hc.
    destruct replace; msimpl.
    + rewrite Hc. msimpl.
      destruct (deque_contains c cards); msimpl.
      * intros [= <- <- <-]. done.
      * destruct (cards ++ [c]); msimpl; intros [= <- <- <-]; done.
    + intros [= <- <- <-]. done.
Qed.

End DeckOps.

(** Instances on concrete decks. *)
Lemma deal_specific_spec_witness :
  Deck.deal_specific Hearts Two [mkCard Spades Ace; mkCard Clubs King]
    = (inr None, [mkCard Spades Ace; mkCard Clubs King]) ∧
  ∃ before after,
    [mkCard Spades Ace; mkCard Hearts Two; mkCard Clubs King]
      = before ++ (mkCard Hearts Two :: after) ∧
    (mkCard Hearts Two ∉ before) ∧
    Deck.deal_specific Hearts Two
        [mkCard Spades Ace; mkCard Hearts Two; mkCard Clubs King]
      = (inr (Some (mkCard Hearts Two)), before ++ after).
Proof.
  split.
  - apply (deal_specific_spec Hearts Two). by apply (bool_decide_unpack _).
  - apply (deal_specific_spec Hearts Two). by apply (bool_decide_unpack _).
Defined.

Lemma return_card_spec_witness :
  Deck.return_card (mkCard Hearts Two) [mkCard Spades Ace]
    = (inr tt, [mkCard Spades Ace] ++ [mkCard Hearts Two]) ∧
  Deck.return_card (mkCard Hearts Two) [mkCard Spades Ace; mkCard Hearts Two]
    = (inl ValueError, [mkCard Spades Ace; mkCard Hearts Two]).
Proof.
  split.
  - apply (return_card_spec (mkCard Hearts Two)). by apply (bool_decide_unpack _).
  - apply (return_card_spec (mkCard Hearts Two)). by apply (bool_decide_unpack _).
Defined.

Lemma draw_spec_witness :
  draw false (seated SYNStrat_cheater_villain 4 (Some (mkCard Hearts Two)),
              [mkCard Spades Ace])
    = (inr tt, (seated SYNStrat_cheater_villain 4 (Some (mkCard Hearts Two)),
                [mkCard Spades Ace])).
Proof.
  apply (draw_spec (seated SYNStrat_cheater_villain 4 (Some (mkCard Hearts Two)))
           [mkCard Spades Ace] false) with (c := mkCard Hearts Two); reflexivity.
Defined.

(** ** The cheater strategy *)

Section Cheater.
Context {S : Type}.

Lemma cheater_scan_spec (opponents : list pid) (player : pid)
    (gs : SYNGameState S) (r : Rank) :
  held_rank gs player = Some r →
  (∀ q, q ∈ opponents → is_Some (held_rank gs q)) →
  cheater_scan opponents player gs
    = inr (negb (existsb (λ q, bool_decide (q ≠ player) &&
                   match held_rank gs q with
                   | Some r' => Rank_lt r' r
                   | None => false
                   end) opponents)).
Proof.
  intros Hp Hall. induction opponents as [|q rest IH]; [done|].
  simpl. unfold held_rank in Hp.
  destruct (current_card (store gs player)) as [pc|] eqn:Epc; [|done].
  injection Hp as <-.
  destruct (Hall q) as [r' Hq]; [by left|]. rewrite Hq.
  unfold held_rank in Hq.
  destruct (current_card (store gs q)) as [oc|] eqn:Eoc; [|done].
  injection Hq as <-.
  assert (IH' := IH (λ q' Hq', Hall q' (list_elem_of_further _ _ _ Hq'))).
  destruct (bool_decide (q ≠ player)); simpl; [|done].
  destruct (Rank_lt (rank oc) (rank pc)); simpl; done.
Qed.

(** C2, as the code has it.  When the seated players and the acting
    player hold cards, [SYNStrat_cheater_villain.run] answers [False]
    (hold) if some other seated player holds a rank strictly below the
    acting player's, and [True] (swap) if none does, that is if the acting
    player's rank is at most the rank of every other seated player. *)
Theorem cheater_villain_run_spec (player : pid) (gs : SYNGameState S) :
  all_hold gs → is_Some (held_rank gs player) →
  (undercut gs player → cheater_villain_run player gs = inr false) ∧
  (¬ undercut gs player → cheater_villain_run player gs = inr true) ∧
  (cheater_villain_run player gs = inr true ↔
     ∀ q r r', q ∈ players gs → q ≠ player →
       held_rank gs player = Some r → held_rank gs q = Some r' →
       Rank_value r ≤ Rank_value r').
Proof.
  intros Hall [r Hr].
  assert (Hall' : ∀ q, q ∈ players gs → is_Some (held_rank gs q)).
  { intros q Hq. unfold held_rank. destruct (Hall q Hq) as [c ->]. by eexists. }
  unfold cheater_villain_run. rewrite (cheater_scan_spec _ _ _ r Hr Hall').
  set (test := λ q, _ && _).
  assert (Hex : existsb test (players gs) = true ↔ undercut gs player).
  { rewrite existsb_exists. unfold test, undercut. split.
    - intros (q & Hq & Ht). apply list_elem_of_In in Hq.
      apply andb_true_iff in Ht as [Hne Hlt]. apply bool_decide_eq_true in Hne.
      destruct (held_rank gs q) as [r'|] eqn:Er'; [|done].
      exists q, r, r'. split_and!; try done. unfold Rank_lt in Hlt. lia.
    - intros (q & r0 & r' & Hq & Hne & Hr0 & Hr' & Hlt).
      exists q. split; [by apply list_elem_of_In|].
      rewrite Hr', (bool_decide_eq_true_2 _ Hne). simpl.
      assert (r0 = r) as -> by congruence. unfold Rank_lt. lia. }
  split_and!.
  - intros Hu. apply Hex in Hu. by rewrite Hu.
  - intros Hu. destruct (existsb test (players gs)); [|done].
    destruct Hu. by apply Hex.
  - split.
    + intros Hrun q r0 r' Hq Hne Hr0 Hr'.
      destruct (Z.le_gt_cases (Rank_value r0) (Rank_value r')) as [|Hlt]; [done|].
      assert (Hu : undercut gs player) by (exists q, r0, r'; split_and!; done).
      apply Hex in Hu. rewrite Hu in Hrun. done.
    + intros Hle. destruct (existsb test (players gs)); [|done].
      destruct (proj1 Hex eq_refl) as (q & r0 & r' & Hq & Hne & Hr0 & Hr' & Hlt).
      specialize (Hle q r0 r' Hq Hne Hr0 Hr'). lia.
Qed.

End Cheater.

(** Player 0 holds a Two and player 1 a Five: no one undercuts player 0,
    who swaps; player 0 undercuts player 1, who holds. *)
Lemma cheater_villain_run_spec_witness :
  cheater_villain_run 0%nat
    (table_of [mkCard Hearts Two; mkCard Spades Five] 4 1) = inr true ∧
  cheater_villain_run 1%nat
    (table_of [mkCard Hearts Two; mkCard Spades Five] 4 1) = inr false.
Proof.
  split.
  - apply (cheater_villain_run_spec 0%nat
             (table_of [mkCard Hearts Two; mkCard Spades Five] 4 1)).
    + intros p Hp. apply list_elem_of_In in Hp. vm_compute in Hp.
      destruct Hp as [<-|[<-|[]]]; by eexists.
    + by eexists.
    + intros q r r' Hq Hne Hr Hr'.
      apply list_elem_of_In in Hq. vm_compute in Hq.
      destruct Hq as [<-|[<-|[]]]; [done|].
      vm_compute in Hr, Hr'. injection Hr as <-. injection Hr' as <-. done.
  - apply (cheater_villain_run_spec 1%nat
             (table_of [mkCard Hearts Two; mkCard Spades Five] 4 1)).
    + intros p Hp. apply list_elem_of_In in Hp. vm_compute in Hp.
      destruct Hp as [<-|[<-|[]]]; by eexists.
    + by eexists.
    + exists 0%nat, Five, Two. split_and!; try done. by left.
Defined.

(** C2, as the claim words it, fails: player 0 holds a Two against a
    Five, is strictly lowest, and the strategy answers [True], not
    [False]. *)
Lemma cheater_strictly_lowest_swaps :
  strictly_lowest (table_of [mkCard Hearts Two; mkCard Spades Five] 4 1) 0%nat ∧
  cheater_villain_run 0%nat
    (table_of [mkCard Hearts Two; mkCard Spades Five] 4 1) ≠ inr false.
Proof.
  split.
  - intros q r r' Hq Hne Hr Hr'. apply list_elem_of_In in Hq. vm_compute in Hq.
    destruct Hq as [<-|[<-|[]]]; [done|].
    vm_compute in Hr, Hr'. injection Hr as <-. injection Hr' as <-. done.
  - vm_compute. discriminate.
Qed.

(** ** Settlement and advance *)

Section Settle.
Context {S : Type} `{!SYNStrat S}.
Implicit Types (st : SYNGameState S) (p : pid).

Lemma Rank_value_range (r : Rank) : 1 ≤ Rank_value r ≤ 13.
Proof. destruct r; simpl; lia. Qed.

Lemma Rank_value_inj (a b : Rank) : Rank_value a = Rank_value b → a = b.
Proof. destruct a, b; simpl; intros; done || lia. Qed.

Lemma tally_step st visited p s :
  is_Some (current_card (store st p)) → tallied st visited s →
  ∃ s', tally p s = (inr tt, s') ∧ tallied st (visited ++ [p]) s'.
Proof.
  intros [c Hc] (Hs & Hlosers & Hmin & Hwit).
  assert (Hr : held_rank st p = Some (rank c)) by (unfold held_rank; by rewrite Hc).
  destruct s as [pl sto rd db dk cl L]. simpl in *.
  injection Hs as -> -> -> -> ->.
  unfold tally. msimpl. simpl. rewrite Hc. case_bool_decide as Heq.
  - eexists. split; [done|]. unfold tallied. simpl. split_and!.
    + done.
    + rewrite list.filter_app, <- Hlosers. f_equal.
      rewrite filter_cons_True by (by rewrite Hr, Heq). done.
    + intros q r [Hq|Hq%list_elem_of_singleton]%elem_of_app Hqr.
      * by apply (Hmin q).
      * subst q. rewrite Hr in Hqr. injection Hqr as <-. rewrite Heq. lia.
    + right. exists p. split; [apply elem_of_app; right; by left|].
      by rewrite Hr, Heq.
  - destruct (Rank_lt (rank c) cl) eqn:Hlt; unfold Rank_lt in Hlt.
    + apply Z.ltb_lt in Hlt. eexists. split; [done|].
      unfold tallied. simpl. split_and!.
      * done.
      * rewrite list.filter_app, filter_cons_True, filter_nil by done.
        rewrite filter_none; [done|].
        intros q Hq Hqr. specialize (Hmin q _ Hq Hqr). lia.
      * intros q r [Hq|Hq%list_elem_of_singleton]%elem_of_app Hqr.
        -- specialize (Hmin q r Hq Hqr). lia.
        -- subst q. rewrite Hr in Hqr. injection Hqr as <-. lia.
      * right. exists p. split; [apply elem_of_app; right; by left|done].
    + apply Z.ltb_ge in Hlt. eexists. split; [done|].
      unfold tallied. simpl. split_and!.
      * done.
      * rewrite list.filter_app, filter_cons_False, filter_nil, app_nil_r; [done|].
        rewrite Hr. intros [= E]. done.
      * intros q r [Hq|Hq%list_elem_of_singleton]%elem_of_app Hqr.
        -- by apply (Hmin q).
        -- subst q. rewrite Hr in Hqr. by injection Hqr as <-.
      * destruct Hwit as [HK|(q & Hq & Hqr)]; [by left|].
        right. exists q. split; [apply elem_of_app; by left|done].
Qed.

(** The loop [for player in self.cur_losers: player.current_stack -= 1]
    never raises; it takes from each player one chip for each time the
    player is listed and changes nothing else. *)
Lemma lose_stake_loop (losers : list pid) (s : SYNGameState S) :
  ∃ s', for_each losers lose_stake s = (inr tt, s') ∧
    s' = set_store (store s') s ∧
    ∀ p, store s' p
         = set_current_stack
             (current_stack (store s p) - Z.of_nat (count_occ Nat.eq_dec losers p))
             (store s p).
Proof.
  revert s. induction losers as [|q losers IH]; intros s.
  - exists s. split_and!; [done|by destruct s|].
    intros p. simpl. rewrite Z.sub_0_r. by destruct (store s p).
  - destruct (IH (update_player q
                    (λ self, set_current_stack (current_stack self - 1) self) s))
      as (s' & Hrun & Hframe & Hstore).
    exists s'. split_and!; [done|by rewrite Hframe at 1|].
    intros p. rewrite Hstore. unfold update_player. simpl.
    destruct (Nat.eq_dec q p) as [->|Hne].
    + rewrite fn_lookup_insert. unfold set_current_stack. simpl. f_equal. lia.
    + by rewrite fn_lookup_insert_ne.
Qed.

(** [calculate_results] from a state where the players hold cards and
    [cur_losers] is empty: [s1] is the state after the first loop, [s2]
    the final one. *)
Lemma calculate_results_run (practice_round : bool) st :
  all_hold st → cur_losers st = [] →
  ∃ s1 s2,
    calculate_results practice_round st
      = (inr (current_low s1, cur_losers s1), s2) ∧
    tallied st (players st) s1 ∧
    s2 = set_store (store s2) s1 ∧
    ∀ p, store s2 p
         = set_current_stack
             (current_stack (store st p)
              - if negb practice_round && negb (tiegame s1)
                then Z.of_nat (count_occ Nat.eq_dec (cur_losers s1) p) else 0)
             (store st p).
Proof.
  intros Hall Hempty.
  destruct (for_each_total (tallied st) tally (players st) (set_current_low King st))
    as (s1 & Hloop & Hs1).
  { unfold tallied. rsimpl. rewrite Hempty.
    split_and!; [done|done|by intros p r ?%elem_of_nil|by left]. }
  { intros visited x rest s El Hv. apply tally_step; [|done].
    apply Hall. rewrite El. apply elem_of_app. right. by left. }
  assert (Hsto : store s1 = store st) by (destruct Hs1 as [-> _]; done).
  exists s1. unfold calculate_results. msimpl. rsimpl. rewrite Hloop.
  destruct practice_round; simpl.
  { exists s1. split_and!; [done|done|by destruct s1|].
    intros p. rewrite Hsto, Z.sub_0_r. by destruct (store st p). }
  destruct (tiegame s1); simpl.
  { exists s1. split_and!; [done|done|by destruct s1|].
    intros p. rewrite Hsto, Z.sub_0_r. by destruct (store st p). }
  destruct (lose_stake_loop (cur_losers s1) s1) as (s2 & Hrun & Hframe & Hstore).
  rewrite Hrun. exists s2. split_and!; [by rewrite Hframe|done|done|].
  intros p. rewrite Hstore, Hsto. done.
Qed.

(** C3.  In a round with a seated player the losers computed by
    [calculate_results] are the players whose card has the lowest rank
    held at the table, every one of them when several tie; the rank
    returned is that lowest rank.  ([start_round] has emptied
    [cur_losers]; the players hold their cards.) *)
Theorem calculate_results_losers (practice_round : bool) st :
  players st ≠ [] → all_hold st → cur_losers st = [] →
  ∃ low losers st',
    calculate_results practice_round st = (inr (low, losers), st') ∧
    cur_losers st' = losers ∧ current_low st' = low ∧
    (∃ p, p ∈ players st ∧ held_rank st p = Some low) ∧
    (∀ p r, p ∈ players st → held_rank st p = Some r →
       Rank_value low ≤ Rank_value r) ∧
    losers = filter (λ p, held_rank st p = Some low) (players st) ∧
    (∀ p, p ∈ losers ↔ p ∈ players st ∧ held_rank st p = Some low).
Proof.
  intros Hne Hall Hempty.
  destruct (calculate_results_run practice_round st Hall Hempty)
    as (s1 & s2 & Hrun & (Hs1 & Hlosers & Hmin & Hwit) & Hframe & _).
  exists (current_low s1), (cur_losers s1), s2. split_and!.
  - done.
  - by rewrite Hframe.
  - by rewrite Hframe.
  - destruct Hwit as [HK|Hw]; [|done].
    destruct (players st) as [|p ps] eqn:Eps; [done|].
    exists p. split; [by left|].
    destruct (Hall p) as [c Hc]; [rewrite Eps; by left|].
    assert (Hr : held_rank st p = Some (rank c)) by (unfold held_rank; by rewrite Hc).
    rewrite Hr. f_equal. apply Rank_value_inj.
    assert (Hp : p ∈ p :: ps) by (by left).
    specialize (Hmin p _ Hp Hr). rewrite HK in *.
    pose proof (Rank_value_range (rank c)). simpl in *. lia.
  - done.
  - done.
  - intros p. rewrite Hlosers. by rewrite list_elem_of_filter, (comm and).
Qed.

(** What [calculate_results] does to the stacks at a table of distinct
    players: chips are taken only in a real round in which every seated
    player is a loser and one of them has a stack other than 0; then each
    loser gives one chip. *)
Lemma calculate_results_stakes (practice_round : bool) st :
  NoDup (players st) → all_hold st → cur_losers st = [] →
  ∃ low losers st',
    calculate_results practice_round st = (inr (low, losers), st') ∧
    ∀ p, current_stack (store st' p)
         = current_stack (store st p)
           - if negb practice_round && bool_decide (losers = players st)
                && existsb (λ q, negb (current_stack (store st q) =? 0)) losers
                && bool_decide (p ∈ losers)
             then 1 else 0.
Proof.
  intros Hnd Hall Hempty.
  destruct (calculate_results_run practice_round st Hall Hempty)
    as (s1 & s2 & Hrun & (Hs1 & Hlosers & _) & Hframe & Hstore).
  exists (current_low s1), (cur_losers s1), s2. split; [done|].
  intros p. rewrite Hstore. simpl. f_equal.
  assert (Hsto : store s1 = store st) by (rewrite Hs1; done).
  assert (Hpl : players s1 = players st) by (rewrite Hs1; done).
  unfold tiegame. rewrite Hsto, Hpl.
  destruct practice_round; simpl; [done|].
  case_bool_decide as Heq; simpl; [|done].
  rewrite negb_involutive.
  destruct (existsb _ (cur_losers s1)); simpl; [|done].
  assert (Hnd' : NoDup (cur_losers s1)) by (by rewrite Heq).
  case_bool_decide as Hin.
  - apply list_elem_of_In in Hin.
    by rewrite (proj1 (NoDup_count_occ' Nat.eq_dec _)
                  (proj1 (NoDup_ListNoDup _) Hnd') p Hin).
  - by rewrite (proj1 (count_occ_not_In Nat.eq_dec _ p))
      by (by rewrite <- list_elem_of_In).
Qed.

(** C6.  [advance_round] adds one to the round counter whatever happens.
    After a practice round nothing else changes: the button stays.  After
    a real round at a table with a player the button becomes
    [(dealer_button + 1) mod len(players)], one seat further, back to seat
    0 from the last seat. *)
Theorem advance_round_spec (practice_round : bool) st :
  (∀ r st', advance_round practice_round st = (r, st') →
     round st' = round st + 1) ∧
  (practice_round = true →
     advance_round practice_round st = (inr tt, set_round (round st + 1) st) ∧
     dealer_button (set_round (round st + 1) st) = dealer_button st) ∧
  (practice_round = false → players st ≠ [] →
     ∃ st', advance_round practice_round st = (inr tt, st') ∧
       st' = set_dealer_button
               ((dealer_button st + 1) `mod` Z.of_nat (length (players st)))
               (set_round (round st + 1) st) ∧
       (0 ≤ dealer_button st < Z.of_nat (length (players st)) →
        dealer_button st' =
          if bool_decide (dealer_button st + 1 = Z.of_nat (length (players st)))
          then 0 else dealer_button st + 1)).
Proof.
  split_and!.
  - intros r st'. unfold advance_round. msimpl.
    destruct practice_round; simpl; [by intros [= <- <-]|].
    case_bool_decide; intros [= <- <-]; done.
  - intros ->. done.
  - intros -> Hne. eexists. split_and!; [|done|].
    + unfold advance_round. msimpl. simpl.
      rewrite bool_decide_eq_false_2; [done|]. by destruct (players st).
    + simpl. intros Hb. case_bool_decide as E.
      * rewrite E. apply Z.mod_same. lia.
      * apply Z.mod_small. lia.
Qed.

End Settle.

Lemma calculate_results_losers_witness :
  ∃ st', calculate_results false
           (table_of [mkCard Hearts Five; mkCard Spades Two; mkCard Clubs Two] 4 2)
         = (inr (Two, [1%nat; 2%nat]), st').
Proof.
  destruct (calculate_results_losers false
              (table_of [mkCard Hearts Five; mkCard Spades Two; mkCard Clubs Two] 4 2))
    as (low & losers & st' & Hrun & _).
  - done.
  - intros p Hp. apply list_elem_of_In in Hp. vm_compute in Hp.
    destruct Hp as [<-|[<-|[<-|[]]]]; by eexists.
  - reflexivity.
  - exists st'. rewrite Hrun. vm_compute in Hrun. by injection Hrun as <- <- _.
Defined.

Lemma advance_round_spec_witness :
  round (snd (advance_round false
           (table_of [mkCard Hearts Five; mkCard Spades Two; mkCard Clubs Two] 4 2)))
    = 1 ∧
  dealer_button (snd (advance_round false
           (table_of [mkCard Hearts Five; mkCard Spades Two; mkCard Clubs Two] 4 2)))
    = 0.
Proof.
  destruct (advance_round_spec false
              (table_of [mkCard Hearts Five; mkCard Spades Two; mkCard Clubs Two] 4 2))
    as (Hround & _ & Hbutton).
  destruct Hbutton as (st' & Hrun & -> & _); [reflexivity|done|].
  split; reflexivity.
Defined.

(** C1.  The code takes no chip from a single loser.  Player 0 holds a
    Two and player 1 a Five, both with 4 chips, in a real round: player 0
    is the only loser, the losers are not the whole table, [tiegame] stays
    [True] and both stacks are still 4. *)
Theorem calculate_results_single_loser_keeps_stack :
  ∃ st', calculate_results false
           (table_of [mkCard Hearts Two; mkCard Spades Five] 4 1)
         = (inr (Two, [0%nat]), st') ∧
    current_stack (store st' 0%nat) = 4 ∧
    current_stack (store st' 1%nat) = 4.
Proof.
  destruct (calculate_results_stakes false
              (table_of [mkCard Hearts Two; mkCard Spades Five] 4 1))
    as (low & losers & st' & Hrun & Hstacks).
  - apply (bool_decide_unpack _). vm_compute. exact I.
  - intros p Hp. apply list_elem_of_In in Hp. vm_compute in Hp.
    destruct Hp as [<-|[<-|[]]]; by eexists.
  - reflexivity.
  - exists st'. rewrite Hrun. vm_compute in Hrun.
    injection Hrun as <- <- _. split; [done|].
    split; rewrite Hstacks; reflexivity.
Qed.

(** ** Turns *)

Section Turns.
Context {S : Type} `{!SYNStrat S}.
Implicit Types (st : SYNGameState S) (p : pid).

(** [take_turn] by a player whose strategy answers [b]: the answer is
    returned and recorded, with the card held, in the player; nothing
    else changes. *)
Lemma take_turn_run p st (b : bool) :
  strategy_run (strategy (store st p)) p st = inr b →
  ∃ st', take_turn p st = (inr b, st') ∧
    st' = set_store (store st') st ∧
    store st' p = set_pre_swap_card (current_card (store st p))
                    (set_attempted_to_swap b (store st p)) ∧
    ∀ q, q ≠ p → store st' q = store st q.
Proof.
  intros Hb. eexists. split_and!.
  - unfold take_turn, lift_exn. msimpl. rewrite Hb. usimpl. lookups. done.
  - done.
  - usimpl. lookups. done.
  - intros q Hq. usimpl. lookups. done.
Qed.

(** The card a player holds is not changed by [take_turn]. *)
Lemma take_turn_card p st st' (b : bool) q :
  store st' p = set_pre_swap_card (current_card (store st p))
                  (set_attempted_to_swap b (store st p)) →
  (∀ q, q ≠ p → store st' q = store st q) →
  current_card (store st' q) = current_card (store st q) ∧
  target_of_swap (store st' q) = target_of_swap (store st q) ∧
  current_stack (store st' q) = current_stack (store st q).
Proof.
  intros Hp Hother. destruct (decide (q = p)) as [->|Hne].
  - by rewrite Hp.
  - by rewrite Hother.
Qed.

(** C5.  A player who is not on the button, whose strategy asks to swap
    and whose next player holds a King: the turn ends without exception,
    both players hold the cards they held, the next player's
    [target_of_swap] is as it was, the acting player has
    [attempted_to_swap] set and [pre_swap_card] equal to the card held;
    the deck and the other players are untouched. *)
Theorem turn_king_neighbor (first_player num_players i : Z) st
    (cur next : pid) (king : Card) :
  players st !! Z.to_nat (seat_to_act first_player num_players i) = Some cur →
  players st
    !! Z.to_nat (seat_after (seat_to_act first_player num_players i) num_players)
    = Some next →
  seat_to_act first_player num_players i ≠ dealer_button st →
  strategy_run (strategy (store st cur)) cur st = inr true →
  current_card (store st next) = Some king → rank king = King →
  ∃ st', turn first_player num_players i st = (inr tt, st') ∧
    current_card (store st' cur) = current_card (store st cur) ∧
    current_card (store st' next) = Some king ∧
    target_of_swap (store st' next) = target_of_swap (store st next) ∧
    attempted_to_swap (store st' cur) = true ∧
    pre_swap_card (store st' cur) = current_card (store st cur) ∧
    deck st' = deck st ∧
    ∀ q, q ≠ cur → store st' q = store st q.
Proof.
  intros Hcur Hnext Hnb Hrun Hking HK.
  destruct (take_turn_run _ _ _ Hrun) as (st1 & Hrun1 & Hframe & Hp & Hother).
  destruct (take_turn_card cur st st1 true next Hp Hother) as (Hc1 & Ht1 & _).
  exists st1. split_and!.
  - unfold turn, player_at. msimpl. rewrite Hcur, Hnext, Hrun1.
    replace (dealer_button st1) with (dealer_button st) by (by rewrite Hframe).
    rewrite bool_decide_eq_false_2 by done.
    unfold can_be_stolen_from. msimpl. rewrite Hc1, Hking.
    unfold is_stealable. rewrite HK. done.
  - by rewrite Hp.
  - by rewrite Hc1.
  - done.
  - by rewrite Hp.
  - by rewrite Hp.
  - by rewrite Hframe.
  - done.
Qed.

(** [draw(deck, replace=True)] by a seated player whose card is not in
    the deck. *)
Lemma draw_replace_run p st (c : Card) :
  current_card (store st p) = Some c → c ∉ deck st →
  ∃ top rest st',
    deck st ++ [c] = top :: rest ∧
    with_player p (draw true) st = (inr tt, st') ∧
    st' = set_deck rest (set_store (store st') st) ∧
    store st' p = set_current_card (Some top) (store st p) ∧
    ∀ q, q ≠ p → store st' q = store st q.
Proof.
  intros Hc Hnin.
  destruct (draw_replace (store st p) (deck st) c Hc Hnin)
    as (top & rest & E & Hdraw).
  exists top, rest. eexists. split_and!.
  - done.
  - unfold with_player. rewrite Hdraw. done.
  - done.
  - usimpl. lookups. done.
  - intros q Hq. usimpl. lookups. done.
Qed.

(** [SYNPlayer.swap] exchanges the two cards and changes no other card. *)
Lemma swap_run (player1 player2 : pid) st :
  ∃ st', swap player1 player2 st = (inr tt, st') ∧
    st' = set_store (store st') st ∧
    ∀ q, current_card (store st' q)
         = if decide (q = player2) then current_card (store st player1)
           else if decide (q = player1) then current_card (store st player2)
           else current_card (store st q).
Proof.
  eexists. split_and!.
  - unfold swap. msimpl. done.
  - done.
  - intros q. usimpl. destruct (decide (q = player2)) as [->|Hne2].
    + lookups. done.
    + destruct (decide (q = player1)) as [->|Hne1]; lookups; done.
Qed.

(** C7.  The turn of the player on the button whose strategy, whichever
    it is, asks to swap: the card held goes to the bottom of the deck, the
    top card of the deck replaces it, and no other player changes; when
    the strategy answers [False] no card moves.  In [process_turns] the
    button's turn is the last iteration of the loop and no other. *)
Theorem turn_button_swaps_with_deck (first_player num_players i : Z) st
    (cur next : pid) (c : Card) :
  players st !! Z.to_nat (seat_to_act first_player num_players i) = Some cur →
  players st
    !! Z.to_nat (seat_after (seat_to_act first_player num_players i) num_players)
    = Some next →
  seat_to_act first_player num_players i = dealer_button st →
  current_card (store st cur) = Some c → c ∉ deck st →
  (strategy_run (strategy (store st cur)) cur st = inr true →
   ∃ top rest st',
     deck st ++ [c] = top :: rest ∧
     turn first_player num_players i st = (inr tt, st') ∧
     deck st' = rest ∧
     current_card (store st' cur) = Some top ∧
     ∀ q, q ≠ cur → store st' q = store st q) ∧
  (strategy_run (strategy (store st cur)) cur st = inr false →
   ∃ st',
     turn first_player num_players i st = (inr tt, st') ∧
     deck st' = deck st ∧
     current_card (store st' cur) = Some c ∧
     ∀ q, q ≠ cur → store st' q = store st q) ∧
  (2 ≤ Z.of_nat (length (players st)) →
   0 ≤ dealer_button st < Z.of_nat (length (players st)) →
   process_turns st
     = for_each (range (length (players st)))
         (turn (dealer_button st) (Z.of_nat (length (players st)))) st ∧
   ∀ j, 0 ≤ j < Z.of_nat (length (players st)) →
     seat_to_act (dealer_button st) (Z.of_nat (length (players st))) j
       = dealer_button st
     ↔ j = Z.of_nat (length (players st)) - 1).
Proof.
  intros Hcur Hnext Hb Hc Hnin. split_and!.
  - intros Hrun.
    destruct (take_turn_run _ _ _ Hrun) as (st1 & Hrun1 & Hframe & Hp & Hother).
    destruct (draw_replace_run cur st1 c) as (top & rest & st2 & E & Hd & Hf2 & Hp2 & Ho2).
    { by rewrite Hp. }
    { by rewrite Hframe. }
    exists top, rest, st2. split_and!.
    + rewrite <- E. by rewrite Hframe.
    + unfold turn, player_at. msimpl. rewrite Hcur, Hnext, Hrun1.
      replace (dealer_button st1) with (dealer_button st) by (by rewrite Hframe).
      rewrite bool_decide_eq_true_2 by done. done.
    + by rewrite Hf2.
    + by rewrite Hp2.
    + intros q Hq. by rewrite Ho2, Hother.
  - intros Hrun.
    destruct (take_turn_run _ _ _ Hrun) as (st1 & Hrun1 & Hframe & Hp & Hother).
    exists st1. split_and!.
    + unfold turn, player_at. msimpl. by rewrite Hcur, Hnext, Hrun1.
    + by rewrite Hframe.
    + by rewrite Hp.
    + done.
  - intros Hn Hbtn. split.
    + unfold process_turns. msimpl.
      destruct (Z.ltb_spec (Z.of_nat (length (players st))) 2); [lia|done].
    + intros j Hj. unfold seat_to_act.
      set (n := Z.of_nat (length (players st))) in *.
      split.
      * intros Hmod.
        destruct (Z.lt_ge_cases (dealer_button st + j + 1) n) as [Hlt|Hge].
        -- rewrite Z.mod_small in Hmod by lia. lia.
        -- assert (E : (dealer_button st + j + 1) `mod` n
                       = dealer_button st + j + 1 - n).
           { symmetry. apply (Z.mod_unique _ _ 1); lia. }
           lia.
      * intros ->. replace (dealer_button st + (n - 1) + 1)
          with (dealer_button st + 1 * n) by lia.
        rewrite Z.mod_add by lia. apply Z.mod_small. lia.
Qed.

End Turns.

(** Seat 0 holds a Two and asks to swap, seat 1 is on the button with a
    King: the Two and the King stay where they are. *)
Lemma turn_king_neighbor_witness :
  ∃ st', turn 1 2 0 (table_of [mkCard Hearts Two; mkCard Spades King] 4 1)
         = (inr tt, st') ∧
    current_card (store st' 0%nat) = Some (mkCard Hearts Two) ∧
    current_card (store st' 1%nat) = Some (mkCard Spades King) ∧
    target_of_swap (store st' 1%nat) = false ∧
    attempted_to_swap (store st' 0%nat) = true ∧
    pre_swap_card (store st' 0%nat) = Some (mkCard Hearts Two).
Proof.
  destruct (turn_king_neighbor 1 2 0
              (table_of [mkCard Hearts Two; mkCard Spades King] 4 1)
              0%nat 1%nat (mkCard Spades King))
    as (st' & Hrun & Hcur & Hnext & Htarget & Hatt & Hpre & _).
  - reflexivity.
  - reflexivity.
  - vm_compute. discriminate.
  - reflexivity.
  - reflexivity.
  - reflexivity.
  - exists st'. split_and!; [done|by rewrite Hcur|done|by rewrite Htarget|done|
                             by rewrite Hpre].
Defined.

(** Seat 1 is on the button with a Two and asks to swap: the Two goes
    under the deck and the top card, the Ace of Clubs, is drawn. *)
Lemma turn_button_swaps_with_deck_witness :
  ∃ st', turn 1 2 1 (table_of [mkCard Hearts Five; mkCard Spades Two] 4 1)
         = (inr tt, st') ∧
    current_card (store st' 1%nat) = Some (mkCard Clubs Ace) ∧
    store st' 0%nat
      = store (table_of [mkCard Hearts Five; mkCard Spades Two] 4 1) 0%nat.
Proof.
  destruct (turn_button_swaps_with_deck 1 2 1
              (table_of [mkCard Hearts Five; mkCard Spades Two] 4 1)
              1%nat 0%nat (mkCard Spades Two))
    as (Hswap & _ & _).
  - reflexivity.
  - reflexivity.
  - reflexivity.
  - reflexivity.
  - apply (bool_decide_unpack _). vm_compute. exact I.
  - destruct Hswap as (top & rest & st' & E & Hrun & _ & Htop & Hother);
      [reflexivity|].
    exists st'. split_and!; [done| |by apply Hother].
    rewrite Htop. vm_compute in E. by injection E as <- _.
Defined.

(** ** The closed system of cards *)

Section Hands.
Context {S : Type}.
Implicit Types (st : SYNGameState S) (p : pid).

Lemma omap_agree {A B} (f g : A → option B) (l : list A) :
  (∀ x, x ∈ l → f x = g x) → omap f l = omap g l.
Proof.
  induction l as [|x l IH]; intros Hfg; [done|].
  csimpl. rewrite (Hfg x) by (by left).
  rewrite IH; [done|]. intros y Hy. apply Hfg. by right.
Qed.

Lemma NoDup_elem_split (l : list pid) p :
  NoDup l → p ∈ l → ∃ k, l ≡ₚ p :: k ∧ (p ∉ k) ∧ NoDup k.
Proof.
  intros Hnd Hp. apply elem_of_Permutation in Hp as [k Hk].
  exists k. rewrite Hk in Hnd. apply list.NoDup_cons in Hnd as [? ?]. done.
Qed.

(** The hands depend on the cards the seated players hold only. *)
Lemma held_cards_agree st st' :
  players st' = players st →
  (∀ p, p ∈ players st →
     current_card (store st' p) = current_card (store st p)) →
  held_cards st' = held_cards st.
Proof.
  intros Hpl Hcards. unfold held_cards. rewrite Hpl. by apply omap_agree.
Qed.

Lemma closed_system_agree st st' :
  players st' = players st → deck st' = deck st →
  (∀ p, p ∈ players st →
     current_card (store st' p) = current_card (store st p)) →
  closed_system st → closed_system st'.
Proof.
  intros Hpl Hdk Hcards. unfold closed_system.
  by rewrite (held_cards_agree st st' Hpl Hcards), Hdk.
Qed.

Lemma all_hold_agree st st' :
  players st' = players st →
  (∀ p, p ∈ players st →
     current_card (store st' p) = current_card (store st p)) →
  all_hold st → all_hold st'.
Proof.
  intros Hpl Hcards Hall p Hp. rewrite Hpl in Hp.
  rewrite Hcards by done. by apply Hall.
Qed.

Lemma closed_system_NoDup st :
  closed_system st → NoDup (held_cards st ++ deck st).
Proof. intros Hc. rewrite Hc. apply full_deck_NoDup. Qed.

Lemma held_card_elem st p (c : Card) :
  p ∈ players st → current_card (store st p) = Some c → c ∈ held_cards st.
Proof. intros Hp Hc. apply list_elem_of_omap. by exists p. Qed.

(** In a closed system a card in a hand is not in the deck. *)
Lemma held_not_in_deck st p (c : Card) :
  closed_system st → p ∈ players st →
  current_card (store st p) = Some c → c ∉ deck st.
Proof.
  intros Hclosed Hp Hc.
  apply closed_system_NoDup, list.NoDup_app in Hclosed as (_ & Hdisj & _).
  apply Hdisj. by apply (held_card_elem st p).
Qed.

(** One seated player changes card. *)
Lemma held_cards_replace st st' p (c c' : Card) :
  NoDup (players st) → p ∈ players st → players st' = players st →
  current_card (store st p) = Some c →
  current_card (store st' p) = Some c' →
  (∀ q, q ≠ p → current_card (store st' q) = current_card (store st q)) →
  ∃ others, held_cards st ≡ₚ c :: others ∧ held_cards st' ≡ₚ c' :: others.
Proof.
  intros Hnd Hp Hpl Hc Hc' Hother.
  destruct (NoDup_elem_split _ _ Hnd Hp) as (k & Hk & Hnk & _).
  exists (omap (λ q, current_card (store st q)) k).
  unfold held_cards. rewrite Hpl, !Hk. csimpl. rewrite Hc, Hc'. split; [done|].
  rewrite (omap_agree (λ q, current_card (store st' q))
             (λ q, current_card (store st q)) k); [done|].
  intros q Hq. apply Hother. by intros ->.
Qed.

(** Two seated players exchange their cards. *)
Lemma held_cards_swap st st' (p1 p2 : pid) :
  NoDup (players st) → p1 ∈ players st → p2 ∈ players st →
  players st' = players st →
  (∀ q, current_card (store st' q)
        = if decide (q = p2) then current_card (store st p1)
          else if decide (q = p1) then current_card (store st p2)
          else current_card (store st q)) →
  held_cards st' ≡ₚ held_cards st.
Proof.
  intros Hnd Hp1 Hp2 Hpl Hcards.
  destruct (decide (p1 = p2)) as [->|Hne].
  { rewrite (held_cards_agree st st'); [done..|].
    intros q _. rewrite Hcards. by repeat case_decide; subst. }
  destruct (NoDup_elem_split _ _ Hnd Hp1) as (k1 & Hk1 & Hnk1 & Hnd1).
  assert (Hp2' : p2 ∈ k1).
  { rewrite Hk1 in Hp2. apply elem_of_cons in Hp2 as [->|?]; done. }
  destruct (NoDup_elem_split _ _ Hnd1 Hp2') as (k & Hk & Hnk & _).
  assert (Hnk1' : p1 ∉ k).
  { intros Hin. apply Hnk1. rewrite Hk. by right. }
  unfold held_cards. rewrite Hpl, Hk1, Hk. csimpl.
  rewrite !Hcards.
  rewrite (decide_False (P := p1 = p2)), (decide_True (P := p1 = p1)),
    (decide_True (P := p2 = p2)) by done.
  rewrite (omap_agree (λ q, current_card (store st' q))
             (λ q, current_card (store st q)) k).
  - destruct (current_card (store st p1)), (current_card (store st p2));
      try done. apply Permutation_swap.
  - intros q Hq. rewrite Hcards.
    rewrite !decide_False; [done|by intros ->..].
Qed.

End Hands.

Section Round.
Context {S : Type} `{!SYNStrat S}.
Implicit Types (st s sa : SYNGameState S) (p : pid).

(** *** Deal *)

(** [begin_turn] takes the top card of the deck, or raises on an empty
    deck. *)
Lemma begin_turn_run p st r st' :
  with_player p begin_turn st = (r, st') →
  match deck st with
  | [] => r = inl IndexError
  | top :: rest =>
      r = inr tt ∧ st' = set_deck rest (set_store (store st') st) ∧
      current_card (store st' p) = Some top ∧
      ∀ q, q ≠ p → store st' q = store st q
  end.
Proof.
  unfold with_player. msimpl. simpl.
  destruct (deck st) as [|top rest]; simpl.
  - by intros [= <- <-].
  - intros [= <- <-]. split_and!; [done|done|..].
    + usimpl. lookups. done.
    + intros q Hq. usimpl. lookups. done.
Qed.

Lemma dealing_step st rng visited p rest s s' :
  NoDup (players st) → players st = visited ++ p :: rest →
  dealing st rng visited s →
  with_player p begin_turn s = (inr tt, s') →
  dealing st rng (visited ++ [p]) s'.
Proof.
  intros Hnd El (Hpl & Hbtn & Hlos & dealt & Hdeck & Hcards) Hrun.
  apply begin_turn_run in Hrun.
  destruct (deck s) as [|top cards] eqn:Edeck; [done|].
  destruct Hrun as (_ & Hframe & Htop & Hother).
  assert (Hfresh : p ∉ visited).
  { rewrite El in Hnd. apply list.NoDup_app in Hnd as (_ & Hdisj & _).
    intros Hin. apply (Hdisj p Hin). by left. }
  split_and!; [by rewrite Hframe..|].
  exists (dealt ++ [top]). split.
  - rewrite Hdeck, Hframe, <- app_assoc. done.
  - rewrite !fmap_app. simpl. rewrite Htop, <- Hcards. f_equal.
    apply list_fmap_ext. intros i q Hq. simpl. rewrite Hother; [done|].
    intros ->. apply Hfresh. by apply list_elem_of_lookup_2 in Hq.
Qed.

Lemma note_low_run p s s' :
  note_low p s = (inr tt, s') → s' = set_current_low (current_low s') s.
Proof.
  unfold note_low. mstep.
  destruct (current_card (store s p)) as [c|]; [|done].
  destruct (Rank_lt (rank c) (current_low s)); intros [= <-]; by destruct s.
Qed.

(** [start_round] on a full deck, at a table of distinct players: every
    player holds a card, and hands and deck are the 52 cards. *)
Lemma start_round_deals (rng : list Card → list Card) st st1 :
  NoDup (players st) → deck st ≡ₚ full_deck → (∀ d, rng d ≡ₚ d) →
  start_round rng st = (inr tt, st1) →
  players st1 = players st ∧ dealer_button st1 = dealer_button st ∧
  cur_losers st1 = [] ∧ all_hold st1 ∧ closed_system st1.
Proof.
  intros Hnd Hfull Hrng. unfold start_round. mstep.
  case_bool_decide; [|done]. usimpl.
  destruct (for_each (players st) (λ player, with_player player begin_turn) _)
    as [[e|[]] sa] eqn:Hdeal; [done|].
  intros Hlow.
  apply (for_each_partial (dealing st rng)) in Hdeal as Hdealt.
  2: { split_and!; [done..|]. by exists []. }
  2: { intros visited x rest s s' El Hv Hb. by apply (dealing_step st rng visited x rest s). }
  apply (for_each_partial (λ _ s, s = set_current_low (current_low s) sa)) in Hlow.
  2: { by destruct sa. }
  2: { intros _ x _ s s' _ -> Hb. apply note_low_run in Hb. by rewrite Hb at 1. }
  destruct Hdealt as (Hpl & Hbtn & Hlos & dealt & Hdeck & Hcards).
  assert (Hheld : held_cards sa = dealt).
  { unfold held_cards. rewrite Hpl. clear -Hcards. revert dealt Hcards.
    induction (players st) as [|p ps IH]; intros [|c dealt]; try done.
    csimpl. intros [= -> Hrest]. f_equal. by apply IH. }
  assert (Hall : all_hold sa).
  { intros p Hp. rewrite Hpl in Hp.
    assert (Hin : current_card (store sa p) ∈ Some <$> dealt).
    { rewrite <- Hcards. apply list_elem_of_fmap. by exists p. }
    apply list_elem_of_fmap in Hin as (c & -> & _). by eexists. }
  assert (Hclosed : closed_system sa).
  { unfold closed_system. by rewrite Hheld, <- Hdeck, Hrng. }
  rewrite Hlow. split_and!; [done..| |].
  - by apply (all_hold_agree sa).
  - by apply (closed_system_agree sa).
Qed.

(** [start_round] returns when the deck has its 52 cards and at most 52
    players are seated. *)
Lemma start_round_returns (rng : list Card → list Card) st :
  length (deck st) = 52%nat → (∀ d, length (rng d) = length d) →
  (length (players st) ≤ 52)%nat →
  ∃ st1, start_round rng st = (inr tt, st1).
Proof.
  intros Hlen Hrng Hn. unfold start_round. mstep.
  rewrite bool_decide_eq_true_2 by done. usimpl.
  destruct (for_each_total
              (λ visited s,
                 (length (deck s) + length visited = 52)%nat ∧
                 ∀ q, q ∈ visited → is_Some (current_card (store s q)))
              (λ player, with_player player begin_turn) (players st)
              (mkState (players st) (store st) (round st) (dealer_button st)
                 (rng (deck st)) King []))
    as (sa & -> & _ & Hall).
  { simpl. split; [rewrite Hrng; lia|by intros q ?%elem_of_nil]. }
  { intros visited x rest s El [Hcount Hheld].
    destruct (with_player x begin_turn s) as [r s'] eqn:Hrun.
    apply begin_turn_run in Hrun.
    destruct (deck s) as [|top cards] eqn:Edeck.
    { rewrite El, length_app in Hn. simpl in *. lia. }
    destruct Hrun as (-> & Hframe & Htop & Hother).
    exists s'. split; [done|]. split.
    - rewrite Hframe, length_app. simpl in *. lia.
    - intros q [Hq|Hq%list_elem_of_singleton]%elem_of_app.
      + destruct (decide (q = x)) as [->|Hne]; [by eexists|].
        rewrite Hother by done. by apply Hheld.
      + subst q. by eexists. }
  destruct (for_each_total
              (λ _ s, s = set_current_low (current_low s) sa)
              note_low (players st) sa) as (st1 & -> & _).
  { by destruct sa. }
  { intros visited x rest s El ->.
    destruct (Hall x) as [c Hc].
    { rewrite El. apply elem_of_app. right. by left. }
    unfold note_low. mstep. simpl. rewrite Hc.
    destruct (Rank_lt (rank c) (current_low s)); by eexists. }
  by eexists.
Qed.

(** *** Process turns *)

Lemma turn_in_round (first_player num_players i : Z) st s s' :
  NoDup (players st) → in_round st s →
  turn first_player num_players i s = (inr tt, s') →
  in_round st s' ∧ cur_losers s' = cur_losers s.
Proof.
  intros Hnd (Hpl & Hbtn & Hall & Hclosed). unfold turn, player_at. mstep.
  destruct (players s !! _) as [cur|] eqn:Hcur; [|done].
  destruct (players s !! Z.to_nat (seat_after _ _)) as [next|] eqn:Hnext; [|done].
  apply list_elem_of_lookup_2 in Hcur, Hnext.
  destruct (strategy_run (strategy (store s cur)) cur s) as [e|b] eqn:Hrun.
  { unfold take_turn. mstep. by rewrite Hrun. }
  destruct (take_turn_run _ _ _ Hrun) as (s1 & -> & Hframe & Hp & Hother).
  assert (Hcards : ∀ q, q ∈ players s →
            current_card (store s1 q) = current_card (store s q)).
  { intros q _. by apply (take_turn_card cur s s1 b q). }
  assert (Hpl1 : players s1 = players s) by (by rewrite Hframe).
  assert (Hdk1 : deck s1 = deck s) by (by rewrite Hframe).
  assert (Hall1 : all_hold s1) by (by apply (all_hold_agree s)).
  assert (Hclosed1 : closed_system s1) by (by apply (closed_system_agree s)).
  assert (Hin1 : in_round st s1 ∧ cur_losers s1 = cur_losers s).
  { split; [split_and!|]; try done; rewrite Hframe; simpl; congruence. }
  assert (Hnd1 : NoDup (players s1)) by (by rewrite Hpl1, Hpl).
  rewrite <- Hpl1 in Hcur, Hnext.
  clear Hcards Hall Hclosed Hp Hother Hrun.
  destruct b; [|by intros [= <-]].
  case_bool_decide as Hbutton.
  - (* the button swaps with the deck *)
    destruct (Hall1 cur Hcur) as [c Hc].
    pose proof (held_not_in_deck s1 cur c Hclosed1 Hcur Hc) as Hnin.
    destruct (draw_replace_run cur s1 c Hc Hnin)
      as (top & rest & s2 & E & -> & Hf2 & Hp2 & Ho2).
    intros [= <-].
    assert (Hpl2 : players s2 = players s1) by (by rewrite Hf2).
    destruct (held_cards_replace s1 s2 cur c top) as (others & Hh1 & Hh2);
      [done|done|done|done|by rewrite Hp2|by intros q Hq; rewrite Ho2|].
    split; [split_and!|].
    + congruence.
    + rewrite Hf2. simpl. rewrite Hframe. simpl. congruence.
    + intros q Hq. destruct (decide (q = cur)) as [->|Hne].
      * rewrite Hp2. by eexists.
      * rewrite Ho2 by done. apply Hall1. by rewrite <- Hpl2.
    + unfold closed_system in *. rewrite Hh2.
      replace (deck s2) with rest by (by rewrite Hf2).
      rewrite <- Hclosed1, Hh1.
      transitivity (others ++ (top :: rest)); [solve_Permutation|].
      rewrite <- E. solve_Permutation.
    + rewrite Hf2. simpl. by destruct Hin1 as [_ <-].
  - (* another seat swaps with the next player *)
    destruct (Hall1 next Hnext) as [c Hc].
    unfold can_be_stolen_from. mstep. rewrite Hc.
    destruct (is_stealable c); [|by intros [= <-]].
    destruct (swap_run cur next s1) as (s2 & -> & Hf2 & Hswap).
    intros [= <-].
    assert (Hpl2 : players s2 = players s1) by (by rewrite Hf2).
    split; [split_and!|].
    + congruence.
    + rewrite Hf2. simpl. rewrite Hframe. simpl. congruence.
    + intros q Hq. rewrite Hswap. rewrite Hpl2 in Hq.
      repeat case_decide; by apply Hall1.
    + unfold closed_system in *.
      rewrite (held_cards_swap s1 s2 cur next) by done.
      replace (deck s2) with (deck s1) by (by rewrite Hf2). done.
    + rewrite Hf2. simpl. by destruct Hin1 as [_ <-].
Qed.

Lemma process_turns_in_round st st' :
  NoDup (players st) → all_hold st → closed_system st →
  process_turns st = (inr tt, st') →
  in_round st st' ∧ cur_losers st' = cur_losers st ∧
  2 ≤ Z.of_nat (length (players st)).
Proof.
  intros Hnd Hall Hclosed. unfold process_turns. mstep.
  destruct (Z.ltb_spec (Z.of_nat (length (players st))) 2) as [|Hn]; [done|].
  intros Hloop.
  apply (for_each_partial
           (λ _ s, in_round st s ∧ cur_losers s = cur_losers st)) in Hloop.
  - destruct Hloop. done.
  - done.
  - intros _ i _ s s' _ [Hin Hlos] Hturn.
    destruct (turn_in_round _ _ _ st s s' Hnd Hin Hturn) as [? Hlos'].
    split; [done|congruence].
Qed.

(** In a round the only exceptions of a turn are those of the strategy. *)
Lemma turn_returns (first_player i : Z) st s (cur : pid) (b : bool) :
  NoDup (players st) → in_round st s → players s ≠ [] →
  players s
    !! Z.to_nat (seat_to_act first_player (Z.of_nat (length (players s))) i)
    = Some cur →
  strategy_run (strategy (store s cur)) cur s = inr b →
  ∃ s', turn first_player (Z.of_nat (length (players s))) i s = (inr tt, s').
Proof.
  intros Hnd (Hpl & Hbtn & Hall & Hclosed) Hne Hcur Hrun.
  set (n := Z.of_nat (length (players s))) in *.
  assert (Hn : 0 < n) by (destruct (players s); simpl in *; [done|lia]).
  destruct (lookup_lt_is_Some_2 (players s)
              (Z.to_nat (seat_after (seat_to_act first_player n i) n)))
    as [next Hnext].
  { unfold seat_after.
    pose proof (Z.mod_pos_bound (seat_to_act first_player n i + 1) n Hn). lia. }
  unfold turn, player_at. mstep. rewrite Hcur, Hnext.
  apply list_elem_of_lookup_2 in Hcur, Hnext.
  destruct (take_turn_run _ _ _ Hrun) as (s1 & -> & Hframe & Hp & Hother).
  destruct b; [|by eexists].
  assert (Hcards : ∀ q, q ∈ players s →
            current_card (store s1 q) = current_card (store s q)).
  { intros q _. by apply (take_turn_card cur s s1 true q). }
  assert (Hpl1 : players s1 = players s) by (by rewrite Hframe).
  assert (Hdk1 : deck s1 = deck s) by (by rewrite Hframe).
  case_bool_decide.
  - destruct (Hall cur Hcur) as [c Hc].
    destruct (draw_replace_run cur s1 c) as (top & rest & s2 & _ & -> & _).
    + by rewrite Hcards.
    + rewrite Hdk1. by apply (held_not_in_deck s cur).
    + by eexists.
  - destruct (Hall next Hnext) as [c Hc].
    unfold can_be_stolen_from. mstep. rewrite Hcards, Hc by done.
    destruct (is_stealable c); [|by eexists].
    destruct (swap_run cur next s1) as (s2 & -> & _). by eexists.
Qed.

(** With strategies that answer in every state of the round,
    [process_turns] at a table of two or more returns. *)
Lemma process_turns_returns st :
  NoDup (players st) → all_hold st → closed_system st →
  2 ≤ Z.of_nat (length (players st)) →
  (∀ s p, in_round st s → p ∈ players s →
     ∃ b, strategy_run (strategy (store s p)) p s = inr b) →
  ∃ st', process_turns st = (inr tt, st').
Proof.
  intros Hnd Hall Hclosed Hn Hstrat. unfold process_turns. mstep.
  destruct (Z.ltb_spec (Z.of_nat (length (players st))) 2) as [|_]; [lia|].
  destruct (for_each_total (λ _ s, in_round st s)
              (turn (dealer_button st) (Z.of_nat (length (players st))))
              (range (length (players st))) st) as (st' & -> & _).
  - done.
  - intros _ i _ s _ Hin.
    assert (Hpl : players s = players st) by apply Hin.
    assert (Hpos : 0 < Z.of_nat (length (players s))) by (rewrite Hpl; lia).
    destruct (lookup_lt_is_Some_2 (players s)
                (Z.to_nat (seat_to_act (dealer_button st)
                             (Z.of_nat (length (players s))) i)))
      as [cur Hcur].
    { unfold seat_to_act.
      pose proof (Z.mod_pos_bound (dealer_button st + i + 1) _ Hpos). lia. }
    destruct (Hstrat s cur Hin (list_elem_of_lookup_2 _ _ _ Hcur)) as [b Hb].
    destruct (turn_returns (dealer_button st) i st s cur b) as [s' Hturn];
      [done|done|by destruct (players s)|done|done|].
    rewrite Hpl in Hturn. exists s'. split; [done|].
    rewrite <- Hpl in Hturn.
    by destruct (turn_in_round _ _ _ st s s' Hnd Hin Hturn).
  - by eexists.
Qed.

(** *** Settle *)

Lemma calculate_results_in_round (practice_round : bool) st :
  all_hold st → closed_system st → cur_losers st = [] →
  ∃ low losers st',
    calculate_results practice_round st = (inr (low, losers), st') ∧
    cur_losers st' = losers ∧ in_round st st'.
Proof.
  intros Hall Hclosed Hempty.
  destruct (calculate_results_run practice_round st Hall Hempty)
    as (s1 & s2 & Hrun & (Hs1 & _) & Hframe & Hstore).
  exists (current_low s1), (cur_losers s1), s2.
  assert (Hpl : players s2 = players st) by (by rewrite Hframe, Hs1).
  assert (Hdk : deck s2 = deck st) by (by rewrite Hframe, Hs1).
  assert (Hcards : ∀ p, p ∈ players st →
            current_card (store s2 p) = current_card (store st p)).
  { intros p _. by rewrite Hstore. }
  unfold in_round.
  split_and!; [done|by rewrite Hframe|done|by rewrite Hframe, Hs1|..].
  - by apply (all_hold_agree st).
  - by apply (closed_system_agree st).
Qed.

(** *** Collect *)

(** [discard] by a seated player whose card is not in the deck. *)
Lemma discard_run p s (c : Card) :
  current_card (store s p) = Some c → c ∉ deck s →
  ∃ s', with_player p discard s = (inr true, s') ∧
    s' = set_deck (deck s ++ [c]) (set_store (store s') s) ∧
    current_card (store s' p) = None ∧
    ∀ q, q ≠ p → store s' q = store s q.
Proof.
  intros Hc Hnin. apply deque_contains_false in Hnin.
  eexists. split_and!.
  - unfold with_player. msimpl. rewrite Hc. msimpl. rewrite Hnin. done.
  - done.
  - usimpl. lookups. done.
  - intros q Hq. usimpl. lookups. done.
Qed.

Lemma collecting_step st visited p rest s :
  NoDup (players st) → closed_system st →
  players st = visited ++ p :: rest →
  collecting st visited s →
  ∃ s', collect_hand p s = (inr tt, s') ∧ collecting st (visited ++ [p]) s'.
Proof.
  intros Hnd Hclosed El (Hframe & Hdeck & Hdone & Htodo).
  assert (Hfresh : p ∉ visited).
  { rewrite El in Hnd. apply list.NoDup_app in Hnd as (_ & Hdisj & _).
    intros Hin. apply (Hdisj p Hin). by left. }
  assert (Hp : p ∈ players st).
  { rewrite El. apply elem_of_app. right. by left. }
  unfold collect_hand. mstep. rewrite (Htodo p Hfresh).
  destruct (current_card (store st p)) as [c|] eqn:Hc.
  - assert (Hnin : c ∉ deck s).
    { rewrite Hdeck. apply not_elem_of_app. split.
      - by apply (held_not_in_deck st p).
      - apply closed_system_NoDup, list.NoDup_app in Hclosed as (Hheld & _ & _).
        unfold held_cards in Hheld. rewrite El, omap_app in Hheld. csimpl in Hheld.
        rewrite Hc in Hheld.
        apply list.NoDup_app in Hheld as (_ & Hdisj & _).
        intros Hin. apply (Hdisj c Hin). by left. }
    destruct (discard_run p s c) as (s' & -> & Hf' & Hnone & Hother);
      [by rewrite Htodo|done|].
    exists s'. split; [done|]. split_and!.
    + rewrite Hf'. simpl. rewrite Hframe. done.
    + rewrite Hf'. simpl. rewrite Hdeck, omap_app, <- app_assoc. csimpl.
      by rewrite Hc.
    + intros q [Hq|Hq%list_elem_of_singleton]%elem_of_app.
      * rewrite Hother by (by intros ->). by apply Hdone.
      * by subst q.
    + intros q Hq. apply not_elem_of_app in Hq as [Hq1 Hq2].
      rewrite Hother by (intros ->; apply Hq2; by left). by apply Htodo.
  - exists s. split; [done|]. split_and!.
    + done.
    + rewrite omap_app. csimpl. by rewrite Hc, app_nil_r.
    + intros q [Hq|Hq%list_elem_of_singleton]%elem_of_app.
      * by apply Hdone.
      * subst q. by rewrite Htodo.
    + intros q Hq. apply not_elem_of_app in Hq as [Hq1 Hq2]. by apply Htodo.
Qed.


(** *** Advance *)

Lemma advance_round_run (practice_round : bool) st :
  players st ≠ [] →
  ∃ st', advance_round practice_round st = (inr tt, st') ∧
    st' = set_dealer_button (dealer_button st') (set_round (round st + 1) st).
Proof.
  intros Hne. unfold advance_round. mstep.
  destruct practice_round; simpl.
  - eexists. split; [done|]. done.
  - rewrite bool_decide_eq_false_2 by (by destruct (players st)).
    eexists. split; [done|]. done.
Qed.

(** *** The round *)


End Round.



(** * Further properties of the code *)

(** ** cards.py *)

(** The four comparisons of [Rank] agree with one another and order the
    ranks strictly and totally by value, the Ace lowest and the King
    highest. *)
Theorem Rank_order (a b c : Rank) :
  (Rank_lt a b = true ↔ Rank_value a < Rank_value b) ∧
  Rank_gt a b = Rank_lt b a ∧
  Rank_le a b = negb (Rank_lt b a) ∧
  Rank_ge a b = negb (Rank_lt a b) ∧
  Rank_lt a a = false ∧
  (Rank_lt a b = true → Rank_lt b c = true → Rank_lt a c = true) ∧
  (Rank_lt a b = true ∨ a = b ∨ Rank_lt b a = true) ∧
  Rank_le Ace a = true ∧ Rank_le a King = true.
Proof.
  unfold Rank_lt, Rank_gt, Rank_le, Rank_ge. split_and!.
  - apply Z.ltb_lt.
  - by rewrite Z.gtb_ltb.
  - by rewrite Z.leb_antisym.
  - by rewrite Z.geb_leb, Z.leb_antisym.
  - apply Z.ltb_irrefl.
  - rewrite !Z.ltb_lt. lia.
  - rewrite !Z.ltb_lt.
    destruct (Z.lt_trichotomy (Rank_value a) (Rank_value b)) as [?|[E|?]];
      [by left| |by right; right].
    right. left. by apply Rank_value_inj.
  - apply Z.leb_le. pose proof (Rank_value_range a). simpl. lia.
  - apply Z.leb_le. pose proof (Rank_value_range a). simpl. lia.
Qed.

Lemma Rank_order_witness : Rank_lt Two King = true.
Proof.
  apply (Rank_order Two Five King); reflexivity.
Defined.

(** [Deck()] holds the 52 cards in the order of the two loops, suits
    outside and ranks inside: the card of suit [s] and rank [r] is at index
    [13 * (s.value - 1) + (r.value - 1)], so every card is there and none
    twice.  [Deck(empty=True)] holds no card. *)
Theorem Deck_init_spec :
  Deck_init true = [] ∧
  length (Deck_init false) = 52%nat ∧
  NoDup (Deck_init false) ∧
  ∀ s r, Deck_init false
           !! Z.to_nat (13 * (Suit_value s - 1) + (Rank_value r - 1))
         = Some (mkCard s r).
Proof.
  split_and!; [done|done|apply full_deck_NoDup|].
  intros s r. by destruct s, r.
Qed.

(** A deck without duplicates stays so under [deal_single],
    [deal_specific] and [return_card], whatever they answer; the card
    dealt is no longer in the deck. *)
Theorem deck_operations_keep_NoDup (cards : list Card) :
  NoDup cards →
  (∀ c cards', Deck.deal_single cards = (inr c, cards') →
     cards = c :: cards' ∧ NoDup cards' ∧ c ∉ cards') ∧
  (∀ s r res cards', Deck.deal_specific s r cards = (res, cards') →
     NoDup cards' ∧ mkCard s r ∉ cards') ∧
  (∀ c res cards', Deck.return_card c cards = (res, cards') → NoDup cards').
Proof.
  intros Hnd. split_and!.
  - intros c cards'. unfold Deck.deal_single.
    destruct cards as [|c0 rest]; [done|]. intros [= <- <-].
    apply list.NoDup_cons in Hnd as [? ?]. done.
  - intros s r res cards'. unfold Deck.deal_specific.
    destruct (deque_remove (mkCard s r) cards) as [rest|] eqn:E.
    + intros [= <- <-].
      destruct (deque_remove_Some _ _ _ E) as (b & a & -> & -> & Hb).
      apply list.NoDup_app in Hnd as (Hb' & Hdisj & Ha).
      apply list.NoDup_cons in Ha as [Hna Ha]. split.
      * apply list.NoDup_app. split_and!; [done| |done].
        intros x Hx Hxa. apply (Hdisj x Hx). by right.
      * rewrite elem_of_app. by intros [?|?].
    + intros [= <- <-]. split; [done|]. by apply deque_remove_None.
  - intros c res cards'. unfold Deck.return_card.
    destruct (deque_contains c cards) eqn:E; intros [= <- <-]; [done|].
    apply deque_contains_false in E.
    apply list.NoDup_app. split_and!; [done| |apply NoDup_singleton].
    intros x Hx ->%list_elem_of_singleton. done.
Qed.

Lemma deck_operations_keep_NoDup_witness :
  NoDup [mkCard Clubs Ace; mkCard Hearts Two] ∧
  mkCard Hearts Two ∉ [mkCard Clubs Ace].
Proof.
  destruct (deck_operations_keep_NoDup [mkCard Clubs Ace; mkCard Hearts Two])
    as (_ & Hspecific & Hreturn).
  { apply (bool_decide_unpack _). vm_compute. exact I. }
  split.
  - apply (Hreturn (mkCard Clubs Ace) (inl ValueError)). reflexivity.
  - apply (Hspecific Hearts Two (inr (Some (mkCard Hearts Two)))). reflexivity.
Defined.

(** The only copy of a card, at the bottom, is the one [deque.remove]
    takes. *)
Lemma deque_remove_last (c : Card) (cards : list Card) :
  c ∉ cards → deque_remove c (cards ++ [c]) = Some cards.
Proof.
  intros Hnin. induction cards as [|x cards IH]; simpl.
  - by rewrite (proj2 (Card_eq_spec c c)).
  - apply not_elem_of_cons in Hnin as [Hne Hnin].
    destruct (Card_eq x c) eqn:E; [by apply Card_eq_spec in E|].
    by rewrite IH.
Qed.

(** What [deque.remove] leaves is the deque less one copy of the card. *)
Lemma deque_remove_Permutation (c : Card) (cards rest : list Card) :
  deque_remove c cards = Some rest → c :: rest ≡ₚ cards.
Proof.
  intros E. destruct (deque_remove_Some _ _ _ E) as (b & a & -> & -> & _).
  solve_Permutation.
Qed.

(** A card returned to a deck that lacks it and then asked for by name
    comes back and leaves the deck as it was.  In a deck without
    duplicates, a card dealt by name and returned is at the bottom of a
    deck holding the same cards. *)
Theorem deck_round_trips (c : Card) (cards : list Card) :
  (c ∉ cards →
     ∃ cards1, Deck.return_card c cards = (inr tt, cards1) ∧
       Deck.deal_specific (suit c) (rank c) cards1 = (inr (Some c), cards)) ∧
  (NoDup cards → c ∈ cards →
     ∃ cards1 cards2,
       Deck.deal_specific (suit c) (rank c) cards = (inr (Some c), cards1) ∧
       Deck.return_card c cards1 = (inr tt, cards2) ∧
       cards2 = cards1 ++ [c] ∧ cards2 ≡ₚ cards).
Proof.
  assert (Hc : mkCard (suit c) (rank c) = c) by (by destruct c).
  split.
  - intros Hnin. exists (cards ++ [c]). split.
    + unfold Deck.return_card. by rewrite (proj2 (deque_contains_false _ _) Hnin).
    + unfold Deck.deal_specific. rewrite Hc. by rewrite deque_remove_last.
  - intros Hnd Hin. unfold Deck.deal_specific, Deck.return_card. rewrite Hc.
    destruct (deque_remove c cards) as [rest|] eqn:E.
    + destruct (deque_remove_Some _ _ _ E) as (b & a & -> & -> & Hb).
      apply list.NoDup_app in Hnd as (_ & Hdisj & Ha).
      apply list.NoDup_cons in Ha as [Hna _].
      assert (Hnin : c ∉ b ++ a) by (rewrite elem_of_app; by intros [?|?]).
      exists (b ++ a), ((b ++ a) ++ [c]). split_and!; [done| |done|].
      * by rewrite (proj2 (deque_contains_false _ _) Hnin).
      * solve_Permutation.
    + apply deque_remove_None in E. done.
Qed.

Lemma deck_round_trips_witness :
  ∃ cards1,
    Deck.return_card (mkCard Hearts Two) [mkCard Clubs Ace] = (inr tt, cards1) ∧
    Deck.deal_specific Hearts Two cards1
      = (inr (Some (mkCard Hearts Two)), [mkCard Clubs Ace]).
Proof.
  apply (deck_round_trips (mkCard Hearts Two) [mkCard Clubs Ace]).
  apply (bool_decide_unpack _). vm_compute. exact I.
Defined.

Lemma deal_rounds_no_hands (handsize : nat) (cards : list Card) :
  deal_rounds handsize [] cards = (inr [], cards).
Proof. induction handsize as [|n IH]; [done|]. simpl. unfold bind. simpl. apply IH. Qed.

(** [Deck.deal] on a deck as [Deck.__init__] builds it, without the
    attribute [nodeque]: [ValueError] when the deck is too small; else
    [AttributeError] as soon as one player is to be dealt to; else no
    hands.  The deck is untouched in all three cases. *)
Theorem Deck_deal_without_nodeque (players handsize : Z) (cards : list Card) :
  (players * handsize > Z.of_nat (length cards) →
     Deck_deal None players handsize cards = (inl ValueError, cards)) ∧
  (players * handsize ≤ Z.of_nat (length cards) → 1 ≤ players →
     Deck_deal None players handsize cards = (inl AttributeError, cards)) ∧
  (players * handsize ≤ Z.of_nat (length cards) → players ≤ 0 →
     Deck_deal None players handsize cards = (inr [], cards)).
Proof.
  unfold Deck_deal. mstep. split_and!.
  - intros H. by rewrite (proj2 (Z.gtb_gt _ _)).
  - intros H Hp. rewrite Z.gtb_ltb, (proj2 (Z.ltb_ge _ _)) by lia.
    destruct (Z.to_nat players) as [|n] eqn:E; [lia|]. done.
  - intros H Hp. rewrite Z.gtb_ltb, (proj2 (Z.ltb_ge _ _)) by lia.
    replace (Z.to_nat players) with 0%nat by lia. simpl.
    apply deal_rounds_no_hands.
Qed.

Lemma Deck_deal_without_nodeque_witness :
  Deck_deal None 2 1 full_deck = (inl AttributeError, full_deck) ∧
  Deck_deal None 53 1 full_deck = (inl ValueError, full_deck).
Proof.
  split.
  - apply (Deck_deal_without_nodeque 2 1 full_deck); simpl; lia.
  - apply (Deck_deal_without_nodeque 53 1 full_deck); simpl; lia.
Defined.

Lemma create_hands_Some (b : bool) (players : nat) :
  create_hands (Some b) players = inr (replicate players []).
Proof.
  induction players as [|n IH]; [done|].
  simpl. rewrite IH. f_equal. symmetry. apply replicate_S_end.
Qed.

(** One round of dealing gives hand [j] the card at index [j]. *)
Lemma deal_round_run (hands : list (list Card)) (cards : list Card) :
  (length hands ≤ length cards)%nat →
  ∃ hands1,
    deal_round hands cards = (inr hands1, drop (length hands) cards) ∧
    length hands1 = length hands ∧
    ∀ j hand, hands !! j = Some hand →
      ∃ c, cards !! j = Some c ∧ hands1 !! j = Some (hand ++ [c]).
Proof.
  revert cards. induction hands as [|hand0 hands IH]; intros cards Hlen.
  - exists []. split_and!; [done|done|]. intros j hand ?; done.
  - destruct cards as [|c cards]; [simpl in Hlen; lia|].
    destruct (IH cards) as (hands1 & Hrun & Hl & Hj); [simpl in Hlen; lia|].
    exists ((hand0 ++ [c]) :: hands1). split_and!.
    + simpl. unfold bind. simpl. by rewrite Hrun.
    + simpl. by rewrite Hl.
    + intros [|j] hand Hlook; simpl in *.
      * injection Hlook as <-. by exists c.
      * by apply Hj.
Qed.

Lemma deal_rounds_run (handsize : nat) :
  ∀ (hands : list (list Card)) (cards : list Card),
    (length hands * handsize ≤ length cards)%nat →
    ∃ hands',
      deal_rounds handsize hands cards
        = (inr hands', drop (length hands * handsize) cards) ∧
      length hands' = length hands ∧
      ∀ j hand, hands !! j = Some hand →
        ∃ hand', hands' !! j = Some hand' ∧
          length hand' = (length hand + handsize)%nat ∧
          take (length hand) hand' = hand ∧
          ∀ k, (k < handsize)%nat →
            hand' !! (length hand + k)%nat = cards !! (k * length hands + j)%nat.
Proof.
  induction handsize as [|h IH]; intros hands cards Hlen.
  - exists hands. split_and!; [by rewrite Nat.mul_0_r|done|].
    intros j hand Hj. exists hand. split_and!; [done|lia|by apply take_ge|].
    intros k Hk. lia.
  - destruct (deal_round_run hands cards) as (hands1 & Hrun1 & Hl1 & Hj1); [lia|].
    destruct (IH hands1 (drop (length hands) cards))
      as (hands' & Hrun & Hl & Hj).
    { rewrite Hl1, length_drop. lia. }
    exists hands'. split_and!.
    + simpl. unfold bind. rewrite Hrun1, Hrun, Hl1, drop_drop. f_equal. f_equal. lia.
    + by rewrite Hl, Hl1.
    + intros j hand Hlook.
      destruct (Hj1 j hand Hlook) as (c & Hc & Hlook1).
      destruct (Hj j _ Hlook1) as (hand' & Hlook' & Hlen' & Htake & Hk).
      rewrite length_app in Hlen', Htake, Hk. simpl in Hlen', Htake, Hk.
      exists hand'. split_and!; [done|lia| |].
      * transitivity (take (length hand) (take (length hand + 1) hand')).
        { rewrite take_take. f_equal. lia. }
        rewrite Htake. apply take_app_length.
      * intros [|k] Hklt.
        -- rewrite Nat.add_0_r. simpl.
           rewrite <- (lookup_take_lt hand' (length hand + 1)) by lia.
           rewrite Htake, Hc. by apply list_lookup_middle.
        -- replace (length hand + S k)%nat with (length hand + 1 + k)%nat by lia.
           rewrite Hk by lia. rewrite lookup_drop, Hl1. f_equal. lia.
Qed.

(** [Deck.deal] once a caller has set the attribute [nodeque], to either
    value: when the deck has enough cards, [players] hands of [handsize]
    cards are dealt one card at a time around the table, so that card [k]
    of hand [j] is the card that was at index [k * players + j]; the cards
    dealt leave the top of the deck. *)
Theorem Deck_deal_round_robin (b : bool) (players handsize : nat)
    (cards : list Card) :
  (players * handsize ≤ length cards)%nat →
  ∃ hands,
    Deck_deal (Some b) (Z.of_nat players) (Z.of_nat handsize) cards
      = (inr hands, drop (players * handsize) cards) ∧
    length hands = players ∧
    ∀ j hand, hands !! j = Some hand →
      length hand = handsize ∧
      ∀ k, (k < handsize)%nat → hand !! k = cards !! (k * players + j)%nat.
Proof.
  intros Hlen.
  destruct (deal_rounds_run handsize (replicate players []) cards)
    as (hands & Hrun & Hl & Hj).
  { rewrite length_replicate. lia. }
  rewrite length_replicate in Hrun, Hl, Hj.
  exists hands. split_and!; [|done|].
  - unfold Deck_deal. mstep.
    rewrite Z.gtb_ltb, (proj2 (Z.ltb_ge _ _)) by lia.
    rewrite !Nat2Z.id, create_hands_Some. done.
  - intros j hand Hlook.
    assert (Hjlt : (j < players)%nat).
    { rewrite <- Hl. by apply lookup_lt_Some in Hlook. }
    destruct (Hj j []) as (hand' & Hlook' & Hlen' & _ & Hk).
    { by apply lookup_replicate_2. }
    rewrite Hlook in Hlook'. injection Hlook' as <-. split; [done|].
    intros k Hklt. by apply Hk.
Qed.

Lemma Deck_deal_round_robin_witness :
  ∃ hands,
    Deck_deal (Some true) 2 2
        [mkCard Clubs Ace; mkCard Clubs Two; mkCard Clubs Three;
         mkCard Clubs Four; mkCard Clubs Five]
      = (inr hands, [mkCard Clubs Five]) ∧
    hands !! 1%nat = Some [mkCard Clubs Two; mkCard Clubs Four].
Proof.
  destruct (Deck_deal_round_robin true 2 2
              [mkCard Clubs Ace; mkCard Clubs Two; mkCard Clubs Three;
               mkCard Clubs Four; mkCard Clubs Five])
    as (hands & Hrun & _).
  { simpl. lia. }
  exists hands. split; [done|].
  vm_compute in Hrun. by injection Hrun as <-.
Defined.

(** ** screw_your_neighbor.py: the methods of a player *)

Section PlayerMethods.
Context {S : Type} `{!SYNStrat S}.
Implicit Types (self : SYNPlayer S) (cards : list Card) (st : SYNGameState S).

(** [discard] answers whether a card was held.  A held card that the deck
    lacks goes to the bottom and the hand is empty, so that a second
    [discard] answers [False] and changes nothing; a held card that the
    deck already has raises [ValueError] and stays in the hand. *)
Theorem discard_spec self cards :
  (current_card self = None →
     discard (self, cards) = (inr false, (self, cards))) ∧
  (∀ c, current_card self = Some c → c ∉ cards →
     discard (self, cards)
       = (inr true, (set_current_card None self, cards ++ [c])) ∧
     discard (set_current_card None self, cards ++ [c])
       = (inr false, (set_current_card None self, cards ++ [c]))) ∧
  (∀ c, current_card self = Some c → c ∈ cards →
     discard (self, cards) = (inl ValueError, (self, cards))).
Proof.
  split_and!.
  - intros Hc. msimpl. by rewrite Hc.
  - intros c Hc Hnin. apply deque_contains_false in Hnin. split.
    + msimpl. rewrite Hc. msimpl. by rewrite Hnin.
    + done.
  - intros c Hc Hin. apply deque_contains_spec in Hin.
    msimpl. rewrite Hc. msimpl. by rewrite Hin.
Qed.

(** [draw_specific] by a player whose card, if any, is not in the deck
    never raises.  The player ends with the named card when it was in the
    deck or in the hand, and with no card otherwise; hand and deck together
    hold the same cards as before, less nothing but the order; only
    [current_card] changes in the player.  Asking for the card already held
    returns it and leaves the deck as it was. *)
Theorem draw_specific_spec (s : Suit) (r : Rank) self cards :
  (∀ c, current_card self = Some c → c ∉ cards) →
  ∃ got cards',
    draw_specific s r (self, cards) = (inr tt, (set_current_card got self, cards')) ∧
    got = (if bool_decide (mkCard s r ∈ option_list (current_card self) ++ cards)
           then Some (mkCard s r) else None) ∧
    (match got with
     | Some _ => option_list got ++ cards' ≡ₚ option_list (current_card self) ++ cards
     | None => cards' = cards ++ option_list (current_card self)
     end) ∧
    (current_card self = Some (mkCard s r) → cards' = cards).
Proof.
  intros Hfresh. destruct (current_card self) as [c|] eqn:Hc.
  - (* a card in hand: it is discarded first *)
    pose proof (proj2 (deque_contains_false _ _) (Hfresh c eq_refl)) as Hnin.
    destruct (deque_remove (mkCard s r) (cards ++ [c])) as [rest|] eqn:E.
    + exists (Some (mkCard s r)), rest. split_and!.
      * msimpl. rewrite Hc. msimpl. rewrite Hc. msimpl. rewrite Hnin. msimpl.
        by rewrite E.
      * rewrite bool_decide_eq_true_2; [done|].
        assert (Hin : mkCard s r ∈ cards ++ [c]).
        { destruct (decide (mkCard s r ∈ cards ++ [c])) as [|Hn]; [done|].
          apply deque_remove_None in Hn. congruence. }
        simpl. apply elem_of_app in Hin as [?|?%list_elem_of_singleton].
        -- by right.
        -- subst. by left.
      * simpl. rewrite (deque_remove_Permutation _ _ _ E). solve_Permutation.
      * intros [= ->]. rewrite deque_remove_last in E by (by apply Hfresh).
        by injection E as <-.
    + exists None, (cards ++ [c]). split_and!.
      * msimpl. rewrite Hc. msimpl. rewrite Hc. msimpl. rewrite Hnin. msimpl.
        by rewrite E.
      * rewrite bool_decide_eq_false_2; [done|].
        apply deque_remove_None in E. simpl. intros Hin. apply E.
        apply elem_of_app. apply elem_of_cons in Hin as [->|?].
        -- right. by left.
        -- by left.
      * done.
      * intros [= ->]. rewrite deque_remove_last in E by (by apply Hfresh). done.
  - destruct (deque_remove (mkCard s r) cards) as [rest|] eqn:E.
    + exists (Some (mkCard s r)), rest. split_and!.
      * msimpl. rewrite Hc. msimpl. by rewrite E.
      * rewrite bool_decide_eq_true_2; [done|].
        destruct (decide (mkCard s r ∈ cards)) as [|Hn]; [done|].
        apply deque_remove_None in Hn. congruence.
      * simpl. by apply deque_remove_Permutation.
      * done.
    + exists None, cards. split_and!.
      * msimpl. rewrite Hc. msimpl. by rewrite E.
      * rewrite bool_decide_eq_false_2; [done|]. by apply deque_remove_None.
      * simpl. by rewrite app_nil_r.
      * done.
Qed.

(** [SYNPlayer.swap] exchanges the cards of the two players and marks the
    second as target; the deck, the stacks and the other players are
    untouched.  A second [swap] of the same two puts every card back. *)
Theorem swap_spec (player1 player2 : pid) st :
  ∃ st1 st2,
    swap player1 player2 st = (inr tt, st1) ∧
    swap player1 player2 st1 = (inr tt, st2) ∧
    current_card (store st1 player1) = current_card (store st player2) ∧
    current_card (store st1 player2) = current_card (store st player1) ∧
    target_of_swap (store st1 player2) = true ∧
    (∀ q, q ≠ player1 → q ≠ player2 → store st1 q = store st q) ∧
    (∀ q, current_stack (store st1 q) = current_stack (store st q)) ∧
    deck st1 = deck st ∧ players st1 = players st ∧
    (∀ q, current_card (store st2 q) = current_card (store st q)).
Proof.
  destruct (swap_run player1 player2 st) as (st1 & Hrun1 & Hf1 & Hc1).
  destruct (swap_run player1 player2 st1) as (st2 & Hrun2 & Hf2 & Hc2).
  exists st1, st2. split_and!; [done|done|..].
  - rewrite Hc1. repeat case_decide; congruence.
  - rewrite Hc1. by rewrite decide_True.
  - unfold swap in Hrun1. revert Hrun1. mstep. intros [= <-]. usimpl. lookups. done.
  - intros q H1 H2. unfold swap in Hrun1. revert Hrun1. mstep. intros [= <-].
    usimpl. lookups. done.
  - intros q. unfold swap in Hrun1. revert Hrun1. mstep. intros [= <-]. usimpl.
    destruct (decide (q = player2)) as [->|H2]; lookups;
      [by destruct (decide (player2 = player1)) as [->|]; lookups|].
    destruct (decide (q = player1)) as [->|H1]; lookups; done.
  - by rewrite Hf1.
  - by rewrite Hf1.
  - intros q. rewrite Hc2, !Hc1. repeat case_decide; congruence.
Qed.

End PlayerMethods.

Lemma discard_spec_witness :
  discard (seated SYNStrat_cheater_villain 4 (Some (mkCard Hearts Two)),
           [mkCard Hearts Two])
    = (inl ValueError,
       (seated SYNStrat_cheater_villain 4 (Some (mkCard Hearts Two)),
        [mkCard Hearts Two])).
Proof.
  apply (discard_spec (seated SYNStrat_cheater_villain 4 (Some (mkCard Hearts Two)))
           [mkCard Hearts Two]) with (c := mkCard Hearts Two).
  - reflexivity.
  - by left.
Defined.

Lemma draw_specific_spec_witness :
  ∃ got cards',
    draw_specific Hearts Two
        (seated SYNStrat_cheater_villain 4 (Some (mkCard Hearts Two)),
         [mkCard Clubs Ace])
      = (inr tt,
         (set_current_card got
            (seated SYNStrat_cheater_villain 4 (Some (mkCard Hearts Two))),
          cards')) ∧
    got = Some (mkCard Hearts Two) ∧ cards' = [mkCard Clubs Ace].
Proof.
  destruct (draw_specific_spec Hearts Two
              (seated SYNStrat_cheater_villain 4 (Some (mkCard Hearts Two)))
              [mkCard Clubs Ace])
    as (got & cards' & Hrun & Hgot & _ & Hsame).
  - intros c [= <-]. apply (bool_decide_unpack _). vm_compute. exact I.
  - exists got, cards'. split_and!; [done|by rewrite Hgot|by apply Hsame].
Defined.

(** ** Positions and strategies *)

Section Positions.
Context {S : Type} `{!SYNStrat S}.
Implicit Types (st : SYNGameState S) (p : pid).

Lemma list_find_NoDup (l : list pid) (k : nat) p :
  NoDup l → l !! k = Some p → list_find (λ q, q = p) l = Some (k, p).
Proof.
  intros Hnd Hk. apply list_find_Some. split_and!; [done|done|].
  intros j y Hj Hlt ->. pose proof (NoDup_lookup _ _ _ _ Hnd Hj Hk). lia.
Qed.

(** The relative position of the player who acts at iteration [i]. *)
Lemma get_relative_pos_at st p (i : Z) :
  NoDup (players st) → 0 ≤ i < Z.of_nat (length (players st)) →
  players st
    !! Z.to_nat (seat_to_act (dealer_button st) (Z.of_nat (length (players st))) i)
    = Some p →
  get_relative_pos p st = inr i.
Proof.
  intros Hnd Hi Hp. unfold get_relative_pos.
  rewrite (list_find_NoDup _ _ _ Hnd Hp). unfold seat_to_act.
  set (n := Z.of_nat (length (players st))) in *.
  pose proof (Z.mod_pos_bound (dealer_button st + i + 1) n ltac:(lia)) as Hb.
  rewrite Z2Nat.id by lia.
  replace ((dealer_button st + i + 1) `mod` n - 1 - dealer_button st)
    with ((dealer_button st + i + 1) `mod` n + (- 1 - dealer_button st)) by lia.
  rewrite Zplus_mod_idemp_l.
  replace (dealer_button st + i + 1 + (-1 - dealer_button st)) with i by lia.
  rewrite Z.mod_small by lia.
  destruct (Z.ltb_spec i 0); [lia|done].
Qed.

Lemma get_relative_pos_unseated st p :
  p ∉ players st → get_relative_pos p st = inl ValueError.
Proof.
  intros Hp. unfold get_relative_pos.
  rewrite (proj2 (list_find_None (λ q, q = p) (players st))); [done|].
  apply list.Forall_forall. by intros x Hx ->.
Qed.

(** [get_relative_pos] is the order of play: at a table of distinct
    players, the player whose turn is iteration [i] of [process_turns] has
    relative position [i], wherever the button is; a player who is not
    seated gets [ValueError]. *)
Theorem get_relative_pos_is_turn_order st p :
  (∀ i, NoDup (players st) → 0 ≤ i < Z.of_nat (length (players st)) →
     players st
       !! Z.to_nat (seat_to_act (dealer_button st)
                      (Z.of_nat (length (players st))) i)
       = Some p →
     get_relative_pos p st = inr i) ∧
  (p ∉ players st → get_relative_pos p st = inl ValueError).
Proof.
  split.
  - intros i. apply get_relative_pos_at.
  - apply get_relative_pos_unseated.
Qed.

(** [SYNStrat_naive_firstonly.run] at a table of distinct players: for
    the first player to act it answers [True] exactly when the rank held
    is below [lowest_to_keep]; for a player who acts later it raises
    [NotImplementedError], and for one who is not seated [ValueError]. *)
Theorem naive_firstonly_run_spec (lowest_to_keep : Z) st p :
  (∀ i c, NoDup (players st) → 0 ≤ i < Z.of_nat (length (players st)) →
     players st
       !! Z.to_nat (seat_to_act (dealer_button st)
                      (Z.of_nat (length (players st))) i)
       = Some p →
     current_card (store st p) = Some c →
     naive_firstonly_run lowest_to_keep p st
       = if bool_decide (i = 0)
         then inr (Rank_value (rank c) <? lowest_to_keep)
         else inl NotImplementedError) ∧
  (p ∉ players st →
     naive_firstonly_run lowest_to_keep p st = inl ValueError).
Proof.
  split.
  - intros i c Hnd Hi Hp Hc. unfold naive_firstonly_run.
    rewrite (get_relative_pos_at st p i Hnd Hi Hp).
    case_bool_decide as E.
    + subst i. simpl. unfold naive_pass_if_low. rewrite Hc. f_equal.
      rewrite Z.geb_leb, Z.leb_antisym. by destruct (_ <? _).
    + destruct (Z.eqb_spec i 0); done.
  - intros Hp. unfold naive_firstonly_run.
    by rewrite get_relative_pos_unseated.
Qed.

(** The cheater's answer, for a seated cheater at a table where everyone
    holds a card: [True] exactly when no seated player holds a lower
    rank. *)
Lemma cheater_villain_run_lowest st p (r : Rank) :
  all_hold st → p ∈ players st → held_rank st p = Some r →
  ∃ b : bool, cheater_villain_run p st = inr b ∧
    (b = true ↔ ∀ q r', q ∈ players st → held_rank st q = Some r' →
                  Rank_value r ≤ Rank_value r').
Proof.
  intros Hall Hp Hr.
  assert (Hall' : ∀ q, q ∈ players st → is_Some (held_rank st q)).
  { intros q Hq. unfold held_rank. destruct (Hall q Hq) as [c ->]. by eexists. }
  unfold cheater_villain_run. rewrite (cheater_scan_spec _ _ _ r Hr Hall').
  eexists. split; [done|].
  rewrite negb_true_iff, <- not_true_iff_false, existsb_exists. split.
  - intros Hno q r' Hq Hr'.
    destruct (Z.le_gt_cases (Rank_value r) (Rank_value r')) as [|Hlt]; [done|].
    destruct Hno. exists q. split; [by apply list_elem_of_In|].
    rewrite Hr'. apply andb_true_iff. split.
    + apply bool_decide_eq_true. intros ->. rewrite Hr in Hr'.
      injection Hr' as <-. lia.
    + unfold Rank_lt. lia.
  - intros Hmin (q & Hq & Ht). apply list_elem_of_In in Hq.
    apply andb_true_iff in Ht as [_ Hlt].
    destruct (held_rank st q) as [r'|] eqn:Er'; [|done].
    specialize (Hmin q r' Hq Er'). unfold Rank_lt in Hlt. lia.
Qed.

(** The cheater asks to swap exactly when it would lose the round as the
    cards lie: at a table where everyone holds a card, a seated cheater
    answers [True] if and only if [calculate_results] lists it among the
    losers. *)
Theorem cheater_swaps_iff_losing (practice_round : bool) st p :
  all_hold st → cur_losers st = [] → p ∈ players st →
  ∃ low losers st',
    calculate_results practice_round st = (inr (low, losers), st') ∧
    (cheater_villain_run p st = inr true ↔ p ∈ losers) ∧
    (cheater_villain_run p st = inr false ↔ p ∉ losers).
Proof.
  intros Hall Hempty Hp.
  destruct (calculate_results_run practice_round st Hall Hempty)
    as (s1 & s2 & Hrun & (_ & Hlosers & Hmin & Hwit) & _).
  exists (current_low s1), (cur_losers s1), s2. split; [done|].
  destruct (Hall p Hp) as [c Hc].
  assert (Hr : held_rank st p = Some (rank c)) by (unfold held_rank; by rewrite Hc).
  destruct (cheater_villain_run_lowest st p (rank c) Hall Hp Hr)
    as (b & -> & Hb).
  assert (Hiff : p ∈ cur_losers s1 ↔
            ∀ q r', q ∈ players st → held_rank st q = Some r' →
              Rank_value (rank c) ≤ Rank_value r').
  { rewrite Hlosers, list_elem_of_filter, Hr. split.
    - intros [[= E] _] q r' Hq Hr'. rewrite E. by apply (Hmin q).
    - intros Hle. split; [|done]. f_equal. apply Rank_value_inj.
      pose proof (Hmin p _ Hp Hr) as Hlow.
      destruct Hwit as [HK|(q & Hq & Hqr)].
      + rewrite HK in *. pose proof (Rank_value_range (rank c)). simpl in *. lia.
      + specialize (Hle q _ Hq Hqr). lia. }
  rewrite Hiff, <- Hb. split.
  - split; [by intros [= ->]|by intros ->].
  - split; [by intros [= ->]|]. destruct b; [by intros []|done].
Qed.

End Positions.

Lemma get_relative_pos_is_turn_order_witness :
  get_relative_pos 0%nat (fresh_table 3 4 2) = inr 0 ∧
  get_relative_pos 2%nat (fresh_table 3 4 2) = inr 2.
Proof.
  split.
  - apply (get_relative_pos_is_turn_order (fresh_table 3 4 2) 0%nat).
    + apply (bool_decide_unpack _). vm_compute. exact I.
    + simpl. lia.
    + reflexivity.
  - apply (get_relative_pos_is_turn_order (fresh_table 3 4 2) 2%nat).
    + apply (bool_decide_unpack _). vm_compute. exact I.
    + simpl. lia.
    + reflexivity.
Defined.

(** The simulation's hero at seat 0, first to act with the button on seat
    1, keeps nothing below a Five and holds a Two. *)
Lemma naive_firstonly_run_spec_witness :
  naive_firstonly_run 5 0%nat
    (table_of [mkCard Hearts Two; mkCard Spades King] 4 1) = inr true.
Proof.
  apply (naive_firstonly_run_spec 5
           (table_of [mkCard Hearts Two; mkCard Spades King] 4 1) 0%nat)
    with (i := 0) (c := mkCard Hearts Two).
  - apply (bool_decide_unpack _). vm_compute. exact I.
  - simpl. lia.
  - reflexivity.
  - reflexivity.
Defined.

Lemma cheater_swaps_iff_losing_witness :
  ∃ low losers st',
    calculate_results true
        (table_of [mkCard Hearts Two; mkCard Spades Five] 4 1)
      = (inr (low, losers), st') ∧
    (cheater_villain_run 0%nat
        (table_of [mkCard Hearts Two; mkCard Spades Five] 4 1) = inr true
     ↔ 0%nat ∈ losers).
Proof.
  destruct (cheater_swaps_iff_losing true
              (table_of [mkCard Hearts Two; mkCard Spades Five] 4 1) 0%nat)
    as (low & losers & st' & Hrun & Hiff & _).
  - intros p Hp. apply list_elem_of_In in Hp. vm_compute in Hp.
    destruct Hp as [<-|[<-|[]]]; by eexists.
  - reflexivity.
  - by left.
  - by exists low, losers, st'.
Defined.

(** ** The table *)

Lemma omap_id_insert (l : list (option pid)) (i : nat) (y : option pid) (x : pid) :
  l !! i = Some y →
  omap id l = omap id (take i l) ++ option_list y ++ omap id (drop (S i) l) ∧
  omap id (<[i := Some x]> l)
    = omap id (take i l) ++ [x] ++ omap id (drop (S i) l).
Proof.
  intros Hi. split.
  - rewrite <- (take_drop_middle l i y Hi) at 1. rewrite omap_app. csimpl.
    by destruct y.
  - rewrite insert_take_drop by (by apply lookup_lt_Some in Hi).
    by rewrite omap_app.
Qed.

Lemma py_index_range (len seat : Z) :
  ((- len) ≤ seat < len)%Z →
  Table.py_index len seat
    = Some (Z.to_nat (if 0 <=? seat then seat else len + seat)) ∧
  (Z.to_nat (if 0 <=? seat then seat else len + seat)%Z < Z.to_nat len)%nat.
Proof.
  intros Hs. unfold Table.py_index. destruct (Z.leb_spec 0 seat).
  - destruct (Z.ltb_spec seat len); [|lia]. split; [done|lia].
  - destruct (Z.leb_spec 0 (len + seat)); [|lia]. split; [done|lia].
Qed.

(** [SYNTable.add_player]: a seat at or past the end raises the
    [Exception], a seat below [-len(seats)] the [IndexError]; a seat in
    between, negative seats counting from the last, takes the player.  The
    other seats stay, [players] is the occupied seats in seat order,
    [num_players] their number, which grows by one for an empty seat and
    not at all when a player is replaced. *)
Theorem Table_add_player_spec (player : pid) (seat : Z) (t : Table.SYNTable) :
  (Z.of_nat (length (Table.seats t)) ≤ seat →
     Table.add_player player seat t = inl Table.SeatDoesNotExist) ∧
  ((seat < (- Z.of_nat (length (Table.seats t))))%Z →
     Table.add_player player seat t = inl Table.SeatIndexError) ∧
  (((- Z.of_nat (length (Table.seats t))) ≤ seat
    < Z.of_nat (length (Table.seats t)))%Z →
     ∃ i t',
       i = Z.to_nat (if 0 <=? seat then seat
                     else Z.of_nat (length (Table.seats t)) + seat) ∧
       Table.add_player player seat t = inr t' ∧
       Table.seats t' = <[i := Some player]> (Table.seats t) ∧
       Table.seats t' !! i = Some (Some player) ∧
       Table.players t' = omap id (Table.seats t') ∧
       player ∈ Table.players t' ∧
       Table.num_seats t' = Table.num_seats t ∧
       Table.num_players t' = Z.of_nat (length (Table.players t')) ∧
       length (Table.players t')
         = (length (omap id (Table.seats t))
            + match Table.seats t !! i with Some None => 1 | _ => 0 end)%nat).
Proof.
  unfold Table.add_player. split_and!.
  - intros H. destruct (Z.geb_spec seat (Z.of_nat (length (Table.seats t)))); [done|lia].
  - intros H. destruct (Z.geb_spec seat (Z.of_nat (length (Table.seats t)))); [lia|].
    unfold Table.py_index. destruct (Z.leb_spec 0 seat); [lia|].
    destruct (Z.leb_spec 0 (Z.of_nat (length (Table.seats t)) + seat)); [lia|done].
  - intros H. destruct (Z.geb_spec seat (Z.of_nat (length (Table.seats t)))); [lia|].
    destruct (py_index_range _ _ H) as [-> Hlt]. rewrite Nat2Z.id in Hlt.
    set (i := Z.to_nat _) in *.
    destruct (lookup_lt_is_Some_2 _ _ Hlt) as [y Hy].
    destruct (omap_id_insert _ _ _ player Hy) as [Hold Hnew].
    eexists i, _. split_and!; try done; simpl.
    + by apply list_lookup_insert_eq.
    + rewrite Hnew. apply elem_of_app. right. by left.
    + rewrite Hnew, Hold, Hy, !length_app. destruct y; simpl; lia.
Qed.

Lemma Table_add_player_spec_witness :
  Table.add_player 7%nat 5 (Table.init 3) = inl Table.SeatDoesNotExist ∧
  ∃ i t', i = 2%nat ∧ Table.add_player 7%nat (-1) (Table.init 3) = inr t' ∧
    Table.seats t' !! i = Some (Some 7%nat).
Proof.
  destruct (Table_add_player_spec 7%nat 5 (Table.init 3)) as (Hpast & _ & _).
  destruct (Table_add_player_spec 7%nat (-1) (Table.init 3)) as (_ & _ & Hin).
  split.
  - apply Hpast. simpl. lia.
  - destruct Hin as (i & t' & Hi & Hrun & _ & Hseat & _); [simpl; lia|].
    exists i, t'. split_and!; done.
Defined.

Lemma length_omap_le {A B} (f : A → option B) (l : list A) :
  (length (omap f l) ≤ length l)%nat.
Proof. induction l as [|x l IH]; csimpl; [done|]. destruct (f x); simpl; lia. Qed.

(** Every table a program builds keeps [num_seats] seats, has as
    [players] the occupied seats in seat order and as [num_players] their
    number, which is at most the number of seats. *)
Theorem built_table_invariant (t : Table.SYNTable) :
  built_table t →
  length (Table.seats t) = Z.to_nat (Table.num_seats t) ∧
  Table.players t = omap id (Table.seats t) ∧
  Table.num_players t = Z.of_nat (length (Table.players t)) ∧
  0 ≤ Table.num_players t ≤ Z.max 0 (Table.num_seats t).
Proof.
  induction 1 as [n|t t' player seat _ IH Hadd].
  - simpl. rewrite length_replicate. split_and!; [done| |done|lia..].
    induction (Z.to_nat n); [done|]. by csimpl.
  - destruct IH as (Hlen & _).
    unfold Table.add_player in Hadd.
    destruct (seat >=? _); [done|]. destruct (Table.py_index _ _) as [i|]; [|done].
    injection Hadd as <-. simpl. rewrite length_insert.
    split_and!; [done|done|done|lia|].
    pose proof (length_omap_le id (<[i:=Some player]> (Table.seats t))) as Hle.
    rewrite length_insert in Hle. lia.
Qed.

Lemma built_table_invariant_witness :
  ∃ t', Table.add_player 7%nat 1 (Table.init 3) = inr t' ∧
    Table.players t' = omap id (Table.seats t') ∧
    0 ≤ Table.num_players t' ≤ Z.max 0 (Table.num_seats t').
Proof.
  exists (Table.mk 3 1 [None; Some 7%nat; None] [7%nat]).
  split; [reflexivity|].
  destruct (built_table_invariant (Table.mk 3 1 [None; Some 7%nat; None] [7%nat]))
    as (_ & Hpl & _ & Hnum).
  - apply (built_add_player (Table.init 3) _ 7%nat 1); [apply built_init|reflexivity].
  - done.
Defined.

Section SeatingFacts.
Context {S : Type}.

(** [SYNGameState.add_player]: when the table takes the player, the
    player has a stack of 4 whatever the stack was, no other player and
    nothing else in the state changes, and the seated players are at least
    as many as before.  Seating a player who is not yet at a table of
    distinct players keeps the players distinct. *)
Theorem add_player_spec (player : pid) (seat : Z)
    (t t' : Table.SYNTable) (st st' : SYNGameState S) :
  Table.players t = omap id (Table.seats t) →
  players st = Table.players t →
  add_player player seat (t, st) = inr (t', st') →
  Table.add_player player seat t = inr t' ∧
  players st' = Table.players t' ∧
  current_stack (store st' player) = 4 ∧
  (∀ q, q ≠ player → store st' q = store st q) ∧
  deck st' = deck st ∧ round st' = round st ∧
  dealer_button st' = dealer_button st ∧
  (length (players st) ≤ length (players st'))%nat ∧
  (NoDup (players st) → player ∉ players st → NoDup (players st')).
Proof.
  intros Hwf Hpl. unfold add_player. simpl.
  destruct (Table.add_player player seat t) as [e|t1] eqn:Hadd; [done|].
  intros [= <- <-]. usimpl. split_and!; try done.
  - lookups. done.
  - intros q Hq. lookups. done.
  - unfold Table.add_player in Hadd.
    destruct (seat >=? _); [done|].
    destruct (Table.py_index _ _) as [i|] eqn:Hi; [|done].
    injection Hadd as <-. simpl. rewrite Hpl, Hwf.
    destruct (decide (i < length (Table.seats t))%nat) as [Hlt|Hge].
    + destruct (lookup_lt_is_Some_2 _ _ Hlt) as [y Hy].
      destruct (omap_id_insert _ _ _ player Hy) as [-> ->].
      rewrite !length_app. destruct y; simpl; lia.
    + by rewrite list_insert_ge by lia.
  - intros Hnd Hnin. unfold Table.add_player in Hadd.
    destruct (seat >=? _); [done|].
    destruct (Table.py_index _ _) as [i|] eqn:Hi; [|done].
    injection Hadd as <-. simpl. rewrite Hpl, Hwf in Hnd, Hnin.
    destruct (decide (i < length (Table.seats t))%nat) as [Hlt|Hge].
    + destruct (lookup_lt_is_Some_2 _ _ Hlt) as [y Hy].
      destruct (omap_id_insert _ _ _ player Hy) as [Hold ->].
      rewrite Hold in Hnd, Hnin.
      apply list.NoDup_app in Hnd as (Hnd1 & Hdisj & Hnd2).
      apply list.NoDup_app in Hnd2 as (_ & _ & Hnd3).
      rewrite !elem_of_app in Hnin.
      apply list.NoDup_app. split_and!; [done| |].
      * intros x Hx [->|Hx3]%elem_of_cons; [tauto|].
        apply (Hdisj x Hx). apply elem_of_app. by right.
      * apply list.NoDup_cons. split; [tauto|done].
    + by rewrite list_insert_ge by lia.
Qed.

End SeatingFacts.

Lemma add_player_spec_witness :
  ∃ t' st',
    add_player 1%nat 1 (Table.mk 2 1 [Some 0%nat; None] [0%nat],
                        mkState [0%nat]
                          (store_of [seated SYNStrat_cheater_villain 4 None;
                                     seated SYNStrat_cheater_villain 0 None])
                          0 0 full_deck King [])
      = inr (t', st') ∧
    players st' = [0%nat; 1%nat] ∧ current_stack (store st' 1%nat) = 4.
Proof.
  eexists _, _. split; [reflexivity|].
  destruct (add_player_spec 1%nat 1
              (Table.mk 2 1 [Some 0%nat; None] [0%nat])
              (Table.mk 2 2 [Some 0%nat; Some 1%nat] [0%nat; 1%nat])
              (mkState [0%nat]
                 (store_of [seated SYNStrat_cheater_villain 4 None;
                            seated SYNStrat_cheater_villain 0 None])
                 0 0 full_deck King [])
              _ eq_refl eq_refl eq_refl)
    as (_ & Hpl & Hstack & _).
  split; [exact Hpl|exact Hstack].
Defined.

(** ** What the phases leave alone *)

Section Frames.
Context {S : Type} `{!SYNStrat S}.
Implicit Types (st s : SYNGameState S) (self : SYNPlayer S) (p : pid).

(** A property of the state kept by every run of the body, however it
    ends, is kept by the loop, however it ends. *)
Lemma for_each_any {Σ A} (P : Σ → Prop) (body : A → M Σ unit) (l : list A)
    (s : Σ) r (s' : Σ) :
  P s →
  (∀ x (s0 : Σ) r0 (s1 : Σ), x ∈ l → P s0 → body x s0 = (r0, s1) → P s1) →
  for_each l body s = (r, s') → P s'.
Proof.
  revert s. induction l as [|x l IH]; intros s Hs Hbody; simpl.
  - by intros [= <- <-].
  - unfold bind. destruct (body x s) as [[e|[]] s1] eqn:Hb.
    + intros [= <- <-]. apply (Hbody x s (inl e) s1); [by left|done|done].
    + apply IH.
      * apply (Hbody x s (inr tt) s1); [by left|done|done].
      * intros y s0 r0 s0' Hy. apply Hbody. by right.
Qed.

Lemma keeps_stakes_refl st : keeps_stakes st st.
Proof. by split_and!. Qed.

Lemma keeps_stakes_trans st s1 s2 :
  keeps_stakes st s1 → keeps_stakes s1 s2 → keeps_stakes st s2.
Proof.
  intros (Hp1 & Hb1 & Hs1) (Hp2 & Hb2 & Hs2). split_and!; [congruence..|].
  intros p. destruct (Hs1 p), (Hs2 p). split; congruence.
Qed.

(** The methods of a player that take a deck do not touch the stack or
    the strategy. *)
Lemma player_methods_keep_stack self cards r self' cards' :
  (begin_turn (self, cards) = (r, (self', cards')) ∨
   (∃ replace, draw replace (self, cards) = (r, (self', cards')))) →
  current_stack self' = current_stack self ∧ strategy self' = strategy self.
Proof.
  intros [Hrun|[replace Hrun]]; revert Hrun; msimpl; simpl.
  - destruct cards; intros [= <- <- <-]; done.
  - destruct (current_card self) as [c|] eqn:Hc.
    + destruct replace; [|by intros [= <- <- <-]].
      msimpl. rewrite Hc. msimpl. destruct (deque_contains c cards).
      * by intros [= <- <- <-].
      * msimpl. destruct (cards ++ [c]); intros [= <- <- <-]; done.
    + destruct cards; intros [= <- <- <-]; done.
Qed.

Lemma discard_keeps_stack self cards r self' cards' :
  discard (self, cards) = (r, (self', cards')) →
  current_stack self' = current_stack self ∧ strategy self' = strategy self.
Proof.
  msimpl. destruct (current_card self) as [c|]; [|by intros [= <- <- <-]].
  msimpl. destruct (deque_contains c cards); by intros [= <- <- <-].
Qed.

Lemma with_player_keeps_stakes {A} p (m : M (SYNPlayer S * list Card) A) st
    (r : PyExn + A) st' :
  (∀ self cards r self' cards', m (self, cards) = (r, (self', cards')) →
     current_stack self' = current_stack self ∧ strategy self' = strategy self) →
  with_player p m st = (r, st') → keeps_stakes st st'.
Proof.
  intros Hm. unfold with_player.
  destruct (m (store st p, deck st)) as [r1 [self' cards']] eqn:Hrun.
  intros [= <- <-]. apply Hm in Hrun. unfold keeps_stakes. usimpl. split_and!; [done..|].
  intros q. destruct (decide (q = p)) as [->|Hne]; lookups; done.
Qed.

Lemma take_turn_keeps_stakes p st r st' :
  take_turn p st = (r, st') →
  keeps_stakes st st' ∧ deck st' = deck st ∧ cur_losers st' = cur_losers st.
Proof.
  unfold take_turn. mstep.
  destruct (strategy_run (strategy (store st p)) p st) as [e|b].
  - intros [= <- <-]. split; [apply keeps_stakes_refl|done].
  - intros [= <- <-]. unfold keeps_stakes. usimpl. split; [|done]. split_and!; [done..|].
    intros q. destruct (decide (q = p)) as [->|Hne]; lookups; done.
Qed.

Lemma turn_keeps_stakes (first_player num_players i : Z) st r st' :
  turn first_player num_players i st = (r, st') → keeps_stakes st st'.
Proof.
  unfold turn, player_at. mstep.
  destruct (players st !! _) as [cur|]; [|intros [= <- <-]; apply keeps_stakes_refl].
  destruct (players st !! Z.to_nat (seat_after _ _)) as [next|];
    [|intros [= <- <-]; apply keeps_stakes_refl].
  destruct (take_turn cur st) as [[e|b] s1] eqn:Hturn;
    apply take_turn_keeps_stakes in Hturn as [Hk1 _].
  { by intros [= <- <-]. }
  destruct b; [|by intros [= <- <-]].
  case_bool_decide.
  - intros Hdraw. apply (keeps_stakes_trans st s1); [done|].
    apply (with_player_keeps_stakes cur (draw true) s1 r st'); [|done].
    intros self cards r0 self' cards' Hrun.
    apply (player_methods_keep_stack self cards r0 self' cards'). right. by exists true.
  - unfold can_be_stolen_from. mstep.
    destruct (current_card (store s1 next)) as [c|]; [|by intros [= <- <-]].
    destruct (is_stealable c); [|by intros [= <- <-]].
    unfold swap. mstep. intros [= <- <-].
    apply (keeps_stakes_trans st s1); [done|]. unfold keeps_stakes. usimpl. split_and!; [done..|].
    intros q.
    destruct (decide (q = next)) as [->|H2]; lookups;
      [by destruct (decide (next = cur)) as [->|]; lookups|].
    destruct (decide (q = cur)) as [->|H1]; lookups; done.
Qed.

Lemma start_round_keeps_stakes (rng : list Card → list Card) st r st' :
  start_round rng st = (r, st') → keeps_stakes st st'.
Proof.
  unfold start_round. mstep.
  case_bool_decide; [|intros [= <- <-]; apply keeps_stakes_refl]. usimpl.
  set (s0 := mkState _ _ _ _ _ _ _).
  assert (H0 : keeps_stakes st s0) by (by split_and!).
  destruct (for_each (players st) _ s0) as [[e|[]] sa] eqn:Hdeal.
  - intros [= <- <-].
    apply (for_each_any (keeps_stakes st)) in Hdeal; [done|done|].
    intros x s r0 s' _ Hs Hb. apply (keeps_stakes_trans st s); [done|].
    apply (with_player_keeps_stakes x begin_turn s r0 s'); [|done].
    intros self cards r1 self' cards' Hrun.
    apply (player_methods_keep_stack self cards r1 self' cards'). by left.
  - apply (for_each_any (keeps_stakes st)) in Hdeal; [|done|].
    + apply for_each_any; [done|].
      intros x s r0 s' _ Hs. unfold note_low. mstep.
      destruct (current_card (store s x)) as [c|]; [|by intros [= <- <-]].
      destruct (Rank_lt _ _); by intros [= <- <-].
    + intros x s r0 s' _ Hs Hb. apply (keeps_stakes_trans st s); [done|].
      apply (with_player_keeps_stakes x begin_turn s r0 s'); [|done].
      intros self cards r1 self' cards' Hrun.
      apply (player_methods_keep_stack self cards r1 self' cards'). by left.
Qed.

Lemma process_turns_keeps_stakes st r st' :
  process_turns st = (r, st') → keeps_stakes st st'.
Proof.
  unfold process_turns. mstep.
  destruct (_ <? 2); [intros [= <- <-]; apply keeps_stakes_refl|].
  apply for_each_any; [apply keeps_stakes_refl|].
  intros i s r0 s' _ Hs Hb. apply (keeps_stakes_trans st s); [done|].
  by apply turn_keeps_stakes in Hb.
Qed.

Lemma collect_all_hands_keeps_stakes st r st' :
  collect_all_hands st = (r, st') → keeps_stakes st st'.
Proof.
  unfold collect_all_hands. mstep.
  apply for_each_any; [apply keeps_stakes_refl|].
  intros x s r0 s' _ Hs. unfold collect_hand. mstep.
  destruct (current_card (store s x)) as [c|]; [|by intros [= <- <-]].
  destruct (with_player x discard s) as [[e|b] s1] eqn:Hd;
    apply (with_player_keeps_stakes x discard s) in Hd;
    try (intros self cards r1 self' cards'; apply discard_keeps_stack);
    intros [= <- <-]; by apply (keeps_stakes_trans st s).
Qed.

Lemma calculate_results_practice_keeps_stakes st r st' :
  calculate_results true st = (r, st') →
  keeps_stakes st st' ∧ store st' = store st.
Proof.
  unfold calculate_results. mstep. usimpl.
  set (s0 := mkState _ _ _ _ _ _ _).
  destruct (for_each (players st) tally s0) as [[e|[]] s1] eqn:Hloop;
    apply (for_each_any (λ s, keeps_stakes st s ∧ store s = store st)) in Hloop.
  - by intros [= <- <-].
  - by split; [split_and!|].
  - intros x s r0 s' _ [Hs Hsto]. unfold tally. mstep.
    destruct (current_card (store s x)) as [c|]; [|by intros [= <- <-]].
    case_bool_decide; [by intros [= <- <-]|].
    destruct (Rank_lt _ _); by intros [= <- <-].
  - by intros [= <- <-].
  - by split; [split_and!|].
  - intros x s r0 s' _ [Hs Hsto]. unfold tally. mstep.
    destruct (current_card (store s x)) as [c|]; [|by intros [= <- <-]].
    case_bool_decide; [by intros [= <- <-]|].
    destruct (Rank_lt _ _); by intros [= <- <-].
Qed.

(** Chips move in settlement only: [start_round], [process_turns] and
    [collect_all_hands], however they end, by return or by exception,
    leave the stack and the strategy of every player, the seating and the
    button as they were; [advance_round] leaves stacks, strategies and
    seating. *)
Theorem phases_keep_stacks (rng : list Card → list Card)
    (practice_round : bool) st (r : PyExn + unit) st' :
  (start_round rng st = (r, st') → keeps_stakes st st') ∧
  (process_turns st = (r, st') → keeps_stakes st st') ∧
  (collect_all_hands st = (r, st') → keeps_stakes st st') ∧
  (advance_round practice_round st = (r, st') →
     players st' = players st ∧ store st' = store st).
Proof.
  split_and!.
  - apply start_round_keeps_stakes.
  - apply process_turns_keeps_stakes.
  - apply collect_all_hands_keeps_stakes.
  - unfold advance_round. mstep. destruct practice_round; simpl.
    + by intros [= <- <-].
    + case_bool_decide; by intros [= <- <-].
Qed.

(** The call of the database raises or returns and leaves the game as it
    is. *)
Lemma record_round_state (database : Database S) st r st' :
  record_round database st = (r, st') → st' = st.
Proof. destruct database; by intros [= _ <-]. Qed.

(** A practice round, however it ends and whatever the database of the
    game is or does, changes no stack, no strategy, not the seating and not
    the button. *)
Theorem practice_round_keeps_stakes (database : Database S)
    (rng : list Card → list Card) st (r : PyExn + unit) st' :
  play_a_round database rng true st = (r, st') → keeps_stakes st st'.
Proof.
  unfold play_a_round. unfold bind at 1.
  destruct (start_round rng st) as [[e|[]] s1] eqn:H1;
    apply start_round_keeps_stakes in H1; [by intros [= <- <-]|].
  unfold bind at 1.
  destruct (process_turns s1) as [[e|[]] s2] eqn:H2;
    apply process_turns_keeps_stakes in H2;
    [intros [= <- <-]; by apply (keeps_stakes_trans st s1)|].
  unfold bind at 1.
  destruct (calculate_results true s2) as [[e|[low losers]] s3] eqn:H3;
    apply calculate_results_practice_keeps_stakes in H3 as [H3 _].
  { intros [= <- <-].
    apply (keeps_stakes_trans st s1); [done|]. by apply (keeps_stakes_trans s1 s2). }
  assert (H03 : keeps_stakes st (set_cur_losers losers s3)).
  { apply (keeps_stakes_trans st s1); [done|].
    apply (keeps_stakes_trans s1 s2); [done|].
    apply (keeps_stakes_trans s2 s3); [done|]. by split_and!. }
  unfold bind at 1. unfold modify at 1. unfold bind at 1.
  destruct (record_round database (set_cur_losers losers s3)) as [[e|[]] s3']
    eqn:Hrec; apply record_round_state in Hrec as ->; [by intros [= <- <-]|].
  mstep.
  destruct (collect_all_hands (set_cur_losers losers s3)) as [[e|[]] s4] eqn:H4;
    apply collect_all_hands_keeps_stakes in H4.
  { intros [= <- <-]. by apply (keeps_stakes_trans st (set_cur_losers losers s3)). }
  unfold advance_round. mstep. simpl. intros [= <- <-].
  apply (keeps_stakes_trans st (set_cur_losers losers s3)); [done|].
  apply (keeps_stakes_trans _ s4); [done|]. by split_and!.
Qed.

End Frames.

Lemma phases_keep_stacks_witness :
  keeps_stakes (fresh_table 2 4 1) (snd (start_round id (fresh_table 2 4 1))).
Proof.
  apply (proj1 (phases_keep_stacks id true (fresh_table 2 4 1)
                  (fst (start_round id (fresh_table 2 4 1)))
                  (snd (start_round id (fresh_table 2 4 1))))).
  by destruct (start_round id (fresh_table 2 4 1)).
Defined.

(** A game built without a database: the round ends with
    [AttributeError] after settlement, the stacks as they were. *)
Lemma practice_round_keeps_stakes_witness :
  fst (play_a_round database_unset id true (fresh_table 2 4 1))
    = inl AttributeError ∧
  keeps_stakes (fresh_table 2 4 1)
    (snd (play_a_round database_unset id true (fresh_table 2 4 1))).
Proof.
  split; [reflexivity|].
  apply (practice_round_keeps_stakes database_unset id (fresh_table 2 4 1)
           (fst (play_a_round database_unset id true (fresh_table 2 4 1)))).
  by destruct (play_a_round database_unset id true (fresh_table 2 4 1)).
Defined.

(** ** Settlement, collection and advance *)

Section Phases.
Context {S : Type} `{!SYNStrat S}.
Implicit Types (st : SYNGameState S) (p : pid).

(** What a round costs, at a table of distinct players who hold cards:
    [calculate_results] takes chips only in a real round in which every
    seated player is among the losers and one of them has a stack other
    than 0; then every loser, also one with no chip left, gives one chip.
    In every other case, and in every practice round, no stack changes. *)
Theorem calculate_results_charges (practice_round : bool) st :
  NoDup (players st) → all_hold st → cur_losers st = [] →
  ∃ low losers st',
    calculate_results practice_round st = (inr (low, losers), st') ∧
    ∀ p, current_stack (store st' p)
         = current_stack (store st p)
           - if negb practice_round && bool_decide (losers = players st)
                && existsb (λ q, negb (current_stack (store st q) =? 0)) losers
                && bool_decide (p ∈ losers)
             then 1 else 0.
Proof.
  intros Hnd Hall Hempty.
  destruct (calculate_results_run practice_round st Hall Hempty)
    as (s1 & s2 & Hrun & (Hs1 & Hlosers & _) & _ & Hstore).
  exists (current_low s1), (cur_losers s1), s2. split; [done|].
  intros p. rewrite Hstore. simpl. f_equal.
  assert (Hsto : store s1 = store st) by (rewrite Hs1; done).
  assert (Hpl : players s1 = players st) by (rewrite Hs1; done).
  unfold tiegame. rewrite Hsto, Hpl.
  destruct practice_round; simpl; [done|].
  case_bool_decide as Heq; simpl; [|done].
  rewrite negb_involutive.
  destruct (existsb _ (cur_losers s1)); simpl; [|done].
  case_bool_decide as Hin.
  - (* a loser is listed once: the losers are the distinct players *)
    rewrite Heq in Hin |- *. clear -Hnd Hin.
    induction Hnd as [|q l Hq _ IH]; [by apply elem_of_nil in Hin|].
    simpl. destruct (Nat.eq_dec q p) as [->|Hne].
    + rewrite (proj1 (count_occ_not_In Nat.eq_dec l p)); [done|].
      by rewrite <- list_elem_of_In.
    + apply IH. by apply elem_of_cons in Hin as [->|?].
  - rewrite (proj1 (count_occ_not_In Nat.eq_dec _ p)); [done|].
    by rewrite <- list_elem_of_In.
Qed.

(** [collect_all_hands] in a closed system at a table of distinct players
    puts the hands under the deck in seat order and leaves every hand
    empty; a second call changes nothing. *)
Theorem collect_all_hands_order st :
  NoDup (players st) → closed_system st →
  ∃ st', collect_all_hands st = (inr tt, st') ∧
    deck st' = deck st ++ held_cards st ∧
    (∀ p, p ∈ players st → current_card (store st' p) = None) ∧
    players st' = players st ∧
    collect_all_hands st' = (inr tt, st').
Proof.
  intros Hnd Hclosed.
  destruct (for_each_total (collecting st) collect_hand (players st) st)
    as (s' & Hrun & Hframe & Hdeck & Hdone & _).
  { split_and!; [by destruct st|by rewrite app_nil_r|
                 by intros p ?%elem_of_nil|done]. }
  { intros visited x rest s El Hv. by apply (collecting_step st visited x rest). }
  assert (Hpl : players s' = players st) by (by rewrite Hframe).
  exists s'. split_and!; [done|done|done|done|].
  unfold collect_all_hands. mstep. rewrite Hpl.
  destruct (for_each_total (λ _ s, s = s') collect_hand (players st) s')
    as (s'' & -> & ->); [done| |done].
  intros visited x rest s El ->. exists s'. split; [|done].
  unfold collect_hand. mstep. rewrite Hdone; [done|].
  rewrite El. apply elem_of_app. right. by left.
Qed.

Lemma advance_rounds_run (k : nat) :
  ∀ st, players st ≠ [] →
    ∃ st', for_each (replicate k false) advance_round st = (inr tt, st') ∧
      round st' = round st + Z.of_nat k ∧
      dealer_button st'
        = match k with
          | O => dealer_button st
          | _ => (dealer_button st + Z.of_nat k) `mod` Z.of_nat (length (players st))
          end ∧
      players st' = players st ∧ store st' = store st ∧ deck st' = deck st.
Proof.
  induction k as [|k IH]; intros st Hne.
  - exists st. split_and!; [done|simpl; lia|done..].
  - destruct (advance_round_run false st Hne) as (s1 & Hrun1 & Hf1).
    assert (Hb1 : dealer_button s1
                  = (dealer_button st + 1) `mod` Z.of_nat (length (players st))).
    { revert Hrun1. unfold advance_round. mstep. simpl.
      rewrite bool_decide_eq_false_2 by (by destruct (players st)).
      by intros [= <-]. }
    assert (Hpl1 : players s1 = players st) by (by rewrite Hf1).
    destruct (IH s1) as (st' & Hrun & Hround & Hbutton & Hpl & Hsto & Hdk).
    { by rewrite Hpl1. }
    exists st'. split_and!.
    + simpl. unfold bind. by rewrite Hrun1.
    + rewrite Hround, Hf1. simpl. lia.
    + rewrite Hbutton, Hb1, Hpl1. destruct k as [|k'].
      * f_equal; lia.
      * rewrite Zplus_mod_idemp_l. f_equal; lia.
    + congruence.
    + rewrite Hsto, Hf1. done.
    + rewrite Hdk, Hf1. done.
Qed.

(** The button goes round the table.  After a real round at a table with
    a player the button is a seat of the table, wherever it was; from a
    seat of the table, as many real rounds as there are players bring it
    back, with the round counter that many higher and no player
    changed. *)
Theorem advance_round_cycle st :
  players st ≠ [] →
  (∀ st1, advance_round false st = (inr tt, st1) →
     0 ≤ dealer_button st1 < Z.of_nat (length (players st))) ∧
  (0 ≤ dealer_button st < Z.of_nat (length (players st)) →
     ∃ st', for_each (replicate (length (players st)) false) advance_round st
              = (inr tt, st') ∧
       dealer_button st' = dealer_button st ∧
       round st' = round st + Z.of_nat (length (players st)) ∧
       store st' = store st).
Proof.
  intros Hne.
  assert (Hn : 0 < Z.of_nat (length (players st))).
  { destruct (players st); [done|simpl; lia]. }
  split.
  - intros st1. unfold advance_round. mstep. simpl.
    rewrite bool_decide_eq_false_2 by (by destruct (players st)).
    intros [= <-]. simpl. by apply Z.mod_pos_bound.
  - intros Hb.
    destruct (advance_rounds_run (length (players st)) st Hne)
      as (st' & Hrun & Hround & Hbutton & _ & Hsto & _).
    exists st'. split_and!; [done| |done|done].
    rewrite Hbutton. destruct (length (players st)) as [|n] eqn:E; [done|].
    rewrite <- (Z.mul_1_l (Z.of_nat (Datatypes.S n))) at 1.
    rewrite Z.mod_add by lia. apply Z.mod_small. lia.
Qed.

End Phases.

(** Three players tied on Fives with 4 chips each lose one chip each. *)
Lemma calculate_results_charges_witness :
  ∃ st',
    calculate_results false
        (table_of [mkCard Hearts Five; mkCard Spades Five; mkCard Clubs Five] 4 0)
      = (inr (Five, [0%nat; 1%nat; 2%nat]), st') ∧
    current_stack (store st' 0%nat) = 3 ∧
    current_stack (store st' 1%nat) = 3 ∧
    current_stack (store st' 2%nat) = 3.
Proof.
  destruct (calculate_results_charges false
              (table_of [mkCard Hearts Five; mkCard Spades Five; mkCard Clubs Five] 4 0))
    as (low & losers & st' & Hrun & Hstacks).
  - apply (bool_decide_unpack _). vm_compute. exact I.
  - intros p Hp. apply list_elem_of_In in Hp. vm_compute in Hp.
    destruct Hp as [<-|[<-|[<-|[]]]]; by eexists.
  - reflexivity.
  - exists st'. rewrite Hrun. vm_compute in Hrun. injection Hrun as <- <- _.
    split_and!; [done|rewrite Hstacks; reflexivity..].
Defined.

Lemma collect_all_hands_order_witness :
  ∃ st',
    collect_all_hands (table_of [mkCard Hearts Five; mkCard Spades Two] 4 1)
      = (inr tt, st') ∧
    deck st'
      = deck (table_of [mkCard Hearts Five; mkCard Spades Two] 4 1)
        ++ [mkCard Hearts Five; mkCard Spades Two].
Proof.
  destruct (collect_all_hands_order
              (table_of [mkCard Hearts Five; mkCard Spades Two] 4 1))
    as (st' & Hrun & Hdeck & _).
  - apply (bool_decide_unpack _). vm_compute. exact I.
  - unfold closed_system.
    apply NoDup_Permutation; [| apply full_deck_NoDup |].
    + apply (bool_decide_unpack _). vm_compute. exact I.
    + intros c. split; [intros _; apply full_deck_complete|].
      intros _. destruct c as [s r].
      destruct s, r; apply (bool_decide_unpack _); vm_compute; exact I.
  - by exists st'.
Defined.

Lemma advance_round_cycle_witness :
  ∃ st',
    for_each (replicate 3 false) advance_round (fresh_table 3 4 2) = (inr tt, st') ∧
    dealer_button st' = 2 ∧ round st' = 3.
Proof.
  destruct (advance_round_cycle (fresh_table 3 4 2)) as [_ Hcycle]; [done|].
  destruct Hcycle as (st' & Hrun & Hb & Hr & _); [simpl; lia|].
  by exists st'.
Defined.

(** ** The deal *)

Section Deal.
Context {S : Type} `{!SYNStrat S}.
Implicit Types (st s sa : SYNGameState S) (p : pid).

Lemma Forall2_impl_elem {A B} (P Q : A → B → Prop) (l : list A) (k : list B) :
  Forall2 P l k → (∀ x y, x ∈ l → P x y → Q x y) → Forall2 Q l k.
Proof.
  induction 1 as [|x y l k Hxy _ IH]; intros Himpl; constructor.
  - apply Himpl; [by left|done].
  - apply IH. intros x' y' Hx'. apply Himpl. by right.
Qed.

(** [begin_turn] that returns: the whole of the player afterwards. *)
Lemma begin_turn_returns p s s' :
  with_player p begin_turn s = (inr tt, s') →
  ∃ top rest, deck s = top :: rest ∧
    s' = set_deck rest (set_store (store s') s) ∧
    store s' p
      = mkPlayer (current_stack (store s p)) (Some top)
          (pre_swap_card (store s p)) (Some top) (strategy (store s p))
          false false ∧
    ∀ q, q ≠ p → store s' q = store s q.
Proof.
  unfold with_player. msimpl. simpl.
  destruct (deck s) as [|top rest]; simpl; [done|].
  intros [= <-]. exists top, rest. split_and!; [done|done|..].
  - usimpl. lookups. done.
  - intros q Hq. usimpl. lookups. done.
Qed.

(** [start_round] returns exactly when the deck has 52 cards and no more
    than 52 players are seated (the shuffle keeping the number of cards);
    a deck of another size raises [AssertionError] before anything is
    changed. *)
Theorem start_round_returns_iff (rng : list Card → list Card) st :
  (∀ d, length (rng d) = length d) →
  ((∃ st1, start_round rng st = (inr tt, st1)) ↔
     length (deck st) = 52%nat ∧ (length (players st) ≤ 52)%nat) ∧
  (length (deck st) ≠ 52%nat →
     start_round rng st = (inl AssertionError, st)).
Proof.
  intros Hrng. split; [split|].
  - intros [st1 Hrun]. revert Hrun. unfold start_round. mstep.
    case_bool_decide as Hlen; [|done]. split; [done|]. revert Hrun. usimpl.
    destruct (for_each (players st) _ _) as [[e|[]] sa] eqn:Hdeal; [done|].
    intros _.
    apply (for_each_partial
             (λ visited s, (length (deck s) + length visited = 52)%nat))
      in Hdeal.
    + lia.
    + simpl. rewrite Hrng. lia.
    + intros visited x rest s s' El Hv Hb.
      apply begin_turn_returns in Hb as (top & cards & Hd & Hf & _).
      rewrite Hf, length_app. rewrite Hd in Hv. simpl in *. lia.
  - intros [Hlen Hn]. by apply start_round_returns.
  - intros Hlen. unfold start_round. mstep.
    by rewrite bool_decide_eq_false_2.
Qed.

(** [start_round] that returns, at a table of distinct players: the
    players hold, in seat order, the top cards of the shuffled deck, one
    each, and the deck the rest.  Every seated player has that card as
    [orig_card] too and both flags cleared, keeps stack, strategy and
    [pre_swap_card]; players who are not seated are untouched.  The losers
    are emptied, and [current_low] is the lowest rank dealt. *)
Theorem start_round_deals_in_order (rng : list Card → list Card) st st1 :
  NoDup (players st) →
  start_round rng st = (inr tt, st1) →
  held_cards st1 = take (length (players st)) (rng (deck st)) ∧
  deck st1 = drop (length (players st)) (rng (deck st)) ∧
  (∀ p, p ∈ players st →
     ∃ c, store st1 p
          = mkPlayer (current_stack (store st p)) (Some c)
              (pre_swap_card (store st p)) (Some c) (strategy (store st p))
              false false) ∧
  (∀ p, p ∉ players st → store st1 p = store st p) ∧
  players st1 = players st ∧ cur_losers st1 = [] ∧
  (∀ p r, p ∈ players st → held_rank st1 p = Some r →
     Rank_value (current_low st1) ≤ Rank_value r) ∧
  (players st ≠ [] →
     ∃ p, p ∈ players st ∧ held_rank st1 p = Some (current_low st1)).
Proof.
  intros Hnd. unfold start_round. mstep.
  case_bool_decide as Hlen; [|done]. usimpl.
  set (s0 := mkState _ _ _ _ _ _ _).
  destruct (for_each (players st) _ s0) as [[e|[]] sa] eqn:Hdeal; [done|].
  intros Hlow.
  apply (for_each_partial
           (λ visited s,
              s = set_deck (deck s) (set_store (store s) s0) ∧
              (∃ dealt, rng (deck st) = dealt ++ deck s ∧
                 Forall2 (λ p c, store s p
                    = mkPlayer (current_stack (store st p)) (Some c)
                        (pre_swap_card (store st p)) (Some c)
                        (strategy (store st p)) false false) visited dealt) ∧
              ∀ p, p ∉ visited → store s p = store st p)) in Hdeal.
  2: { split_and!; [done|by exists []|done]. }
  2: { intros visited x rest s s' El (Hf & (dealt & Hdeck & Hdealt) & Hrest) Hb.
       assert (Hfresh : x ∉ visited).
       { rewrite El in Hnd. apply list.NoDup_app in Hnd as (_ & Hdisj & _).
         intros Hin. apply (Hdisj x Hin). by left. }
       apply begin_turn_returns in Hb as (top & cards & Hd & Hf' & Hx & Hother).
       split_and!.
       - rewrite Hf'. simpl. by rewrite Hf.
       - exists (dealt ++ [top]). split.
         + rewrite Hdeck, Hd, Hf', <- app_assoc. done.
         + apply Forall2_app.
           * apply (Forall2_impl_elem _ _ _ _ Hdealt).
             intros q c Hq Hqc. rewrite Hother; [done|]. by intros ->.
           * constructor; [|constructor]. rewrite Hx, (Hrest x Hfresh). done.
       - intros q Hq. apply not_elem_of_app in Hq as [Hq1 Hq2].
         rewrite Hother by (intros ->; apply Hq2; by left). by apply Hrest. }
  destruct Hdeal as (Hfa & (dealt & Hdeck & Hdealt) & Hrest).
  assert (Hheld : omap (λ p, current_card (store sa p)) (players st) = dealt).
  { clear -Hdealt. induction Hdealt as [|p c ps cs Hp _ IH]; [done|].
    csimpl. rewrite Hp. simpl. by f_equal. }
  assert (Hcount : length dealt = length (players st)).
  { symmetry. by apply Forall2_length in Hdealt. }
  apply (for_each_partial
           (λ visited s,
              s = set_current_low (current_low s) sa ∧
              (∀ p r, p ∈ visited → held_rank sa p = Some r →
                 Rank_value (current_low s) ≤ Rank_value r) ∧
              (current_low s = King ∨
               ∃ p, p ∈ visited ∧ held_rank sa p = Some (current_low s))))
    in Hlow.
  2: { split_and!; [by destruct sa|by intros p r ?%elem_of_nil|left].
       by rewrite Hfa. }
  2: { intros visited x rest s s' El (Hf & Hmin & Hwit). unfold note_low. mstep.
       assert (Hsto : store s = store sa) by (by rewrite Hf).
       rewrite Hsto.
       destruct (current_card (store sa x)) as [c|] eqn:Hc; [|done].
       assert (Hr : held_rank sa x = Some (rank c))
         by (unfold held_rank; by rewrite Hc).
       destruct (Rank_lt (rank c) (current_low s)) eqn:Hlt; unfold Rank_lt in Hlt;
         intros [= <-].
       - apply Z.ltb_lt in Hlt. usimpl. split_and!.
         + rewrite Hf. done.
         + intros q r [Hq|Hq%list_elem_of_singleton]%elem_of_app Hqr.
           * specialize (Hmin q r Hq Hqr). lia.
           * subst q. rewrite Hr in Hqr. injection Hqr as <-. lia.
         + right. exists x. split; [apply elem_of_app; right; by left|done].
       - apply Z.ltb_ge in Hlt. split_and!.
         + done.
         + intros q r [Hq|Hq%list_elem_of_singleton]%elem_of_app Hqr.
           * by apply (Hmin q).
           * subst q. rewrite Hr in Hqr. by injection Hqr as <-.
         + destruct Hwit as [HK|(q & Hq & Hqr)]; [by left|].
           right. exists q. split; [apply elem_of_app; by left|done]. }
  destruct Hlow as (Hf1 & Hmin & Hwit).
  assert (Hsto : store st1 = store sa) by (by rewrite Hf1).
  assert (Hpl : players st1 = players st) by (by rewrite Hf1, Hfa).
  assert (Hrank : ∀ p, held_rank st1 p = held_rank sa p).
  { intros p. unfold held_rank. by rewrite Hsto. }
  split_and!.
  - unfold held_cards. rewrite Hpl, Hsto, Hheld, Hdeck.
    by rewrite take_app_length' by done.
  - replace (deck st1) with (deck sa) by (by rewrite Hf1).
    rewrite Hdeck. by rewrite drop_app_length' by done.
  - intros p Hp. rewrite Hsto.
    apply list_elem_of_lookup in Hp as [k Hk].
    eapply Forall2_lookup_l in Hk as (c & _ & Hc); [|exact Hdealt].
    by exists c.
  - intros p Hp. rewrite Hsto. by apply Hrest.
  - done.
  - rewrite Hf1. simpl. by rewrite Hfa.
  - intros p r Hp. rewrite Hrank. by apply Hmin.
  - intros Hne. destruct Hwit as [HK|(q & Hq & Hqr)].
    + destruct (players st) as [|p ps] eqn:Eps; [done|].
      exists p. split; [by left|]. rewrite Hrank.
      assert (Hp : p ∈ p :: ps) by (by left).
      inversion Hdealt as [|? c ? ? Hpc _]; subst.
      assert (Hr : held_rank sa p = Some (rank c))
        by (unfold held_rank; by rewrite Hpc).
      rewrite Hr. f_equal. apply Rank_value_inj.
      specialize (Hmin p _ Hp Hr). rewrite HK in *.
      pose proof (Rank_value_range (rank c)). simpl in *. lia.
    + exists q. split; [done|]. by rewrite Hrank.
Qed.

End Deal.

Lemma start_round_returns_iff_witness :
  ∃ st1, start_round id (fresh_table 2 4 1) = (inr tt, st1).
Proof.
  apply (start_round_returns_iff id (fresh_table 2 4 1)).
  - done.
  - split; [reflexivity|simpl; lia].
Defined.

Lemma start_round_deals_in_order_witness :
  held_cards (snd (start_round id (fresh_table 2 4 1)))
    = [mkCard Clubs Ace; mkCard Clubs Two] ∧
  current_low (snd (start_round id (fresh_table 2 4 1))) = Ace.
Proof.
  destruct (start_round_deals_in_order id (fresh_table 2 4 1)
              (snd (start_round id (fresh_table 2 4 1))))
    as (Hheld & _).
  - apply (bool_decide_unpack _). vm_compute. exact I.
  - vm_compute. reflexivity.
  - split; [by rewrite Hheld|reflexivity].
Defined.

(** ** Rounds of the simulation *)

Lemma elem_of_range (n : nat) (i : Z) : i ∈ range n → 0 ≤ i < Z.of_nat n.
Proof.
  unfold range. intros (k & -> & Hk)%list_elem_of_fmap.
  apply elem_of_seq in Hk. lia.
Qed.





(** ** What the turns record *)

(** The arithmetic of the seats of [process_turns]. *)
Lemma seat_to_act_range (b n i : Z) : 0 < n → 0 ≤ seat_to_act b n i < n.
Proof. intros Hn. unfold seat_to_act. by apply Z.mod_pos_bound. Qed.

Lemma seat_after_seat_to_act (b n i : Z) :
  n ≠ 0 → seat_after (seat_to_act b n i) n = seat_to_act b n (i + 1).
Proof.
  intros Hn. unfold seat_after, seat_to_act.
  rewrite Zplus_mod_idemp_l. f_equal. lia.
Qed.

Lemma seat_after_ne (x n : Z) : 2 ≤ n → 0 ≤ x < n → seat_after x n ≠ x.
Proof.
  intros Hn Hx. unfold seat_after.
  destruct (decide (x + 1 < n)) as [Hlt|Hge].
  - rewrite Z.mod_small by lia. lia.
  - replace (x + 1) with n by lia. rewrite Z.mod_same by lia. lia.
Qed.

Lemma seat_to_act_inj (b n i j : Z) :
  0 ≤ i < n → 0 ≤ j < n → seat_to_act b n i = seat_to_act b n j → i = j.
Proof.
  intros Hi Hj E. unfold seat_to_act in E.
  pose proof (Z.div_mod (b + i + 1) n ltac:(lia)) as Ei.
  pose proof (Z.div_mod (b + j + 1) n ltac:(lia)) as Ej.
  rewrite E in Ei.
  assert (Hq : i - j = n * ((b + i + 1) `div` n - (b + j + 1) `div` n)) by lia.
  revert Hq. generalize ((b + i + 1) `div` n - (b + j + 1) `div` n). intros q Hq.
  assert (q = 0) as -> by nia. lia.
Qed.

Lemma seat_to_act_button (b n j : Z) :
  0 ≤ b < n → 0 ≤ j < n → seat_to_act b n j = b ↔ j = n - 1.
Proof.
  intros Hb Hj.
  assert (Hlast : seat_to_act b n (n - 1) = b).
  { unfold seat_to_act. replace (b + (n - 1) + 1) with (b + 1 * n) by lia.
    rewrite Z.mod_add by lia. apply Z.mod_small. lia. }
  split.
  - intros E. apply (seat_to_act_inj b n); [done|lia|congruence].
  - by intros ->.
Qed.

Lemma range_split (n : nat) (visited rest : list Z) (x : Z) :
  range n = visited ++ x :: rest →
  x = Z.of_nat (length visited) ∧ 0 ≤ x < Z.of_nat n.
Proof.
  intros El.
  assert (Hx : range n !! length visited = Some x).
  { rewrite El. by apply list_lookup_middle. }
  unfold range in Hx. rewrite list_lookup_fmap in Hx.
  destruct (seq 0 n !! length visited) as [k|] eqn:E; [|done].
  apply lookup_seq in E as [-> Hlt]. injection Hx as <-. simpl. lia.
Qed.

Lemma length_range (n : nat) : length (range n) = n.
Proof. unfold range. by rewrite length_fmap, length_seq. Qed.

Section Records.
Context {S : Type} `{!SYNStrat S}.
Implicit Types (st s : SYNGameState S) (p : pid).

(** [SYNPlayer.swap] of two different players, field by field. *)
Lemma swap_store (player1 player2 : pid) st :
  player1 ≠ player2 →
  ∃ st', swap player1 player2 st = (inr tt, st') ∧
    st' = set_store (store st') st ∧
    store st' player1
      = set_current_card (current_card (store st player2)) (store st player1) ∧
    store st' player2
      = set_target_of_swap true
          (set_current_card (current_card (store st player1)) (store st player2)) ∧
    ∀ q, q ≠ player1 → q ≠ player2 → store st' q = store st q.
Proof.
  intros Hne. eexists. split_and!.
  - unfold swap. msimpl. done.
  - done.
  - usimpl. lookups. done.
  - usimpl. lookups. done.
  - intros q H1 H2. usimpl. lookups. done.
Qed.

(** The turn of a player who is not on the button, next to another player.
    When the strategy asks to swap and the next player holds a card that
    is not a King, the two cards change hands, the next player becomes
    [target_of_swap], and the acting player has [attempted_to_swap] set and
    the card given away as [pre_swap_card]; the deck, the stacks and the
    other players are untouched.  When the next player holds no card the
    turn raises [AttributeError] after the attempt was recorded.  When the
    strategy answers [False] only the two fields of the acting player are
    written.  When the strategy raises, the turn raises the same exception
    and nothing at all was written. *)
Theorem turn_swaps_with_neighbor (first_player num_players i : Z) st
    (cur next : pid) :
  players st !! Z.to_nat (seat_to_act first_player num_players i) = Some cur →
  players st
    !! Z.to_nat (seat_after (seat_to_act first_player num_players i) num_players)
    = Some next →
  seat_to_act first_player num_players i ≠ dealer_button st →
  cur ≠ next →
  (∀ c, strategy_run (strategy (store st cur)) cur st = inr true →
     current_card (store st next) = Some c → rank c ≠ King →
     ∃ st', turn first_player num_players i st = (inr tt, st') ∧
       current_card (store st' cur) = Some c ∧
       current_card (store st' next) = current_card (store st cur) ∧
       target_of_swap (store st' next) = true ∧
       attempted_to_swap (store st' cur) = true ∧
       pre_swap_card (store st' cur) = current_card (store st cur) ∧
       deck st' = deck st ∧
       (∀ q, q ≠ cur → q ≠ next → store st' q = store st q) ∧
       (∀ q, current_stack (store st' q) = current_stack (store st q))) ∧
  (strategy_run (strategy (store st cur)) cur st = inr true →
   current_card (store st next) = None →
   ∃ st', turn first_player num_players i st = (inl AttributeError, st') ∧
     attempted_to_swap (store st' cur) = true ∧
     pre_swap_card (store st' cur) = current_card (store st cur) ∧
     deck st' = deck st ∧
     (∀ q, current_card (store st' q) = current_card (store st q))) ∧
  (strategy_run (strategy (store st cur)) cur st = inr false →
   ∃ st', turn first_player num_players i st = (inr tt, st') ∧
     attempted_to_swap (store st' cur) = false ∧
     pre_swap_card (store st' cur) = current_card (store st cur) ∧
     deck st' = deck st ∧
     (∀ q, current_card (store st' q) = current_card (store st q)) ∧
     (∀ q, q ≠ cur → store st' q = store st q)) ∧
  (∀ e, strategy_run (strategy (store st cur)) cur st = inl e →
     turn first_player num_players i st = (inl e, st)).
Proof.
  intros Hcur Hnext Hnb Hne. split_and!.
  - intros c Hrun Hc HK.
    destruct (take_turn_run _ _ _ Hrun) as (st1 & Hrun1 & Hframe & Hp & Hother).
    destruct (swap_store cur next st1 Hne) as (st2 & Hswap & Hf2 & H1 & H2 & Ho2).
    exists st2. split_and!.
    + unfold turn, player_at. msimpl. rewrite Hcur, Hnext, Hrun1.
      replace (dealer_button st1) with (dealer_button st) by (by rewrite Hframe).
      rewrite bool_decide_eq_false_2 by done.
      unfold can_be_stolen_from. msimpl. rewrite Hother, Hc by done.
      unfold is_stealable. rewrite bool_decide_eq_false_2 by done. done.
    + rewrite H1, Hother by done. done.
    + rewrite H2, Hp. done.
    + by rewrite H2.
    + by rewrite H1, Hp.
    + by rewrite H1, Hp.
    + by rewrite Hf2, Hframe.
    + intros q Hq1 Hq2. by rewrite Ho2, Hother.
    + intros q. destruct (decide (q = cur)) as [->|Hq1].
      * by rewrite H1, Hp.
      * destruct (decide (q = next)) as [->|Hq2].
        -- by rewrite H2, (Hother next).
        -- by rewrite Ho2, Hother.
  - intros Hrun Hc.
    destruct (take_turn_run _ _ _ Hrun) as (st1 & Hrun1 & Hframe & Hp & Hother).
    exists st1. split_and!.
    + unfold turn, player_at. msimpl. rewrite Hcur, Hnext, Hrun1.
      replace (dealer_button st1) with (dealer_button st) by (by rewrite Hframe).
      rewrite bool_decide_eq_false_2 by done.
      unfold can_be_stolen_from. msimpl. by rewrite Hother, Hc.
    + by rewrite Hp.
    + by rewrite Hp.
    + by rewrite Hframe.
    + intros q. by apply (take_turn_card cur st st1 true q).
  - intros Hrun.
    destruct (take_turn_run _ _ _ Hrun) as (st1 & Hrun1 & Hframe & Hp & Hother).
    exists st1. split_and!.
    + unfold turn, player_at. msimpl. by rewrite Hcur, Hnext, Hrun1.
    + by rewrite Hp.
    + by rewrite Hp.
    + by rewrite Hframe.
    + intros q. by apply (take_turn_card cur st st1 false q).
    + done.
  - intros e Hrun. unfold turn, player_at, take_turn. msimpl.
    by rewrite Hcur, Hnext, Hrun.
Qed.

(** What a turn that returns has written: the acting player's two
    records, the card drawn from the deck or taken from the next player,
    and in the latter case the card and the flag of the next player. *)
Lemma turn_effect (first_player num_players i : Z) s s' (cur next : pid) :
  players s !! Z.to_nat (seat_to_act first_player num_players i) = Some cur →
  players s
    !! Z.to_nat (seat_after (seat_to_act first_player num_players i) num_players)
    = Some next →
  cur ≠ next → all_hold s → closed_system s →
  turn first_player num_players i s = (inr tt, s') →
  pre_swap_card (store s' cur) = current_card (store s cur) ∧
  target_of_swap (store s' cur) = target_of_swap (store s cur) ∧
  orig_card (store s' cur) = orig_card (store s cur) ∧
  (attempted_to_swap (store s' cur) = false →
     current_card (store s' cur) = current_card (store s cur)) ∧
  (∀ q, q ≠ cur → q ≠ next → store s' q = store s q) ∧
  (store s' next = store s next ∨
   (seat_to_act first_player num_players i ≠ dealer_button s ∧
    target_of_swap (store s' next) = true ∧
    orig_card (store s' next) = orig_card (store s next))).
Proof.
  intros Hcur Hnext Hne Hall Hclosed. unfold turn, player_at. mstep.
  rewrite Hcur, Hnext.
  destruct (strategy_run (strategy (store s cur)) cur s) as [e|b] eqn:Hrun.
  { unfold take_turn. mstep. by rewrite Hrun. }
  destruct (take_turn_run _ _ _ Hrun) as (s1 & -> & Hframe & Hp & Hother).
  destruct b.
  - case_bool_decide as Hbutton.
    + apply list_elem_of_lookup_2 in Hcur.
      destruct (Hall cur Hcur) as [c Hc].
      destruct (draw_replace_run cur s1 c)
        as (top & rest & s2 & E & -> & Hf2 & Hp2 & Ho2).
      { by rewrite Hp. }
      { rewrite Hframe. simpl. by apply (held_not_in_deck s cur). }
      intros [= <-]. split_and!.
      * by rewrite Hp2, Hp.
      * by rewrite Hp2, Hp.
      * by rewrite Hp2, Hp.
      * by rewrite Hp2, Hp.
      * intros q Hq _. by rewrite Ho2, Hother.
      * left. by rewrite Ho2, Hother.
    + unfold can_be_stolen_from. mstep.
      destruct (current_card (store s1 next)) as [c|]; [|done].
      destruct (is_stealable c).
      * destruct (swap_store cur next s1 Hne) as (s2 & -> & Hf2 & H1 & H2 & Ho2).
        intros [= <-]. split_and!.
        -- by rewrite H1, Hp.
        -- by rewrite H1, Hp.
        -- by rewrite H1, Hp.
        -- by rewrite H1, Hp.
        -- intros q Hq1 Hq2. by rewrite Ho2, Hother.
        -- right. split_and!.
           ++ by rewrite Hframe in Hbutton.
           ++ by rewrite H2.
           ++ by rewrite H2, (Hother next).
      * intros [= <-]. split_and!; try (by rewrite Hp).
        -- intros q Hq _. by apply Hother.
        -- left. by apply Hother.
  - intros [= <-]. split_and!; try (by rewrite Hp).
    + intros q Hq _. by apply Hother.
    + left. by apply Hother.
Qed.

(** One more turn of the loop of [process_turns]. *)
Lemma turns_taken_step st (k : Z) s s' :
  NoDup (players st) →
  0 ≤ dealer_button st < Z.of_nat (length (players st)) →
  2 ≤ Z.of_nat (length (players st)) →
  0 ≤ k < Z.of_nat (length (players st)) →
  turns_taken st k s →
  turn (dealer_button st) (Z.of_nat (length (players st))) k s = (inr tt, s') →
  turns_taken st (k + 1) s'.
Proof.
  intros Hnd Hbtn Hn Hk [Hin Hrec] Hturn.
  set (n := Z.of_nat (length (players st))) in *.
  set (b := dealer_button st) in *.
  pose proof Hin as (Hpl & Hb & Hall & Hclosed).
  assert (Hseat : ∀ j, (Z.to_nat (seat_to_act b n j) < length (players st))%nat).
  { intros j. pose proof (seat_to_act_range b n j ltac:(lia)). lia. }
  destruct (lookup_lt_is_Some_2 (players st) (Z.to_nat (seat_to_act b n k)))
    as [cur Hcur]; [apply Hseat|].
  destruct (lookup_lt_is_Some_2 (players st)
              (Z.to_nat (seat_after (seat_to_act b n k) n)))
    as [next Hnext].
  { rewrite seat_after_seat_to_act by lia. apply Hseat. }
  assert (Hne : cur ≠ next).
  { intros <-.
    pose proof (NoDup_lookup _ _ _ _ Hnd Hcur Hnext) as E.
    pose proof (seat_to_act_range b n k ltac:(lia)).
    pose proof (seat_after_ne (seat_to_act b n k) n Hn ltac:(lia)).
    unfold seat_after in *.
    pose proof (Z.mod_pos_bound (seat_to_act b n k + 1) n ltac:(lia)). lia. }
  assert (Hdiff : ∀ j p, 0 ≤ j < n → j ≠ k →
            players st !! Z.to_nat (seat_to_act b n j) = Some p → p ≠ cur).
  { intros j p Hj Hjk Hp ->.
    pose proof (NoDup_lookup _ _ _ _ Hnd Hcur Hp) as E.
    pose proof (seat_to_act_range b n k ltac:(lia)).
    pose proof (seat_to_act_range b n j ltac:(lia)).
    apply Hjk. symmetry. apply (seat_to_act_inj b n); [done|done|lia]. }
  destruct (turn_effect b n k s s' cur next)
    as (Hpre & Htgt & Horig & Hatt & Hother & Hnx);
    [by rewrite Hpl|by rewrite Hpl|done|done|done|done|].
  split.
  { by destruct (turn_in_round _ _ _ st s s' Hnd Hin Hturn). }
  intros j p Hj Hp. fold n b in Hj, Hp.
  destruct (Hrec j p Hj Hp) as [Ho Hj'].
  destruct (decide (j = k)) as [->|Hjk].
  - (* the player who has just acted *)
    assert (p = cur) as -> by congruence.
    rewrite bool_decide_eq_false_2 in Hj' by lia.
    rewrite bool_decide_eq_true_2 by lia.
    split; [congruence|]. split_and!.
    + rewrite Hpre. apply Hall. rewrite Hpl. by apply list_elem_of_lookup_2 in Hp.
    + intros Ht. rewrite Hpre. apply Hj'. congruence.
    + intros Ha. rewrite Hpre. by apply Hatt.
  - pose proof (Hdiff j p Hj Hjk Hp) as Hpc.
    destruct Hnx as [Hsame|(Hnb & Htrue & Horig')].
    + (* the next player was left alone *)
      assert (E : store s' p = store s p).
      { destruct (decide (p = next)) as [->|Hpn]; [done|by apply Hother]. }
      rewrite E. split; [done|].
      destruct (decide (j < k)).
      * rewrite !bool_decide_eq_true_2 in * by lia. done.
      * rewrite !bool_decide_eq_false_2 in * by lia. done.
    + (* the next player was the target of a swap *)
      assert (Hk' : k + 1 < n).
      { rewrite Hb in Hnb. pose proof (seat_to_act_button b n k Hbtn Hk). lia. }
      rewrite seat_after_seat_to_act in Hnext by lia.
      destruct (decide (j = k + 1)) as [->|Hjn].
      * assert (p = next) as -> by congruence.
        split; [congruence|].
        rewrite bool_decide_eq_false_2 by lia. congruence.
      * assert (Hpn : p ≠ next).
        { intros ->.
          pose proof (NoDup_lookup _ _ _ _ Hnd Hnext Hp) as E.
          pose proof (seat_to_act_range b n (k + 1) ltac:(lia)).
          pose proof (seat_to_act_range b n j ltac:(lia)).
          apply Hjn. symmetry. apply (seat_to_act_inj b n); [lia|done|lia]. }
        rewrite Hother by done. split; [done|].
        destruct (decide (j < k)).
        -- rewrite !bool_decide_eq_true_2 in * by lia. done.
        -- rewrite !bool_decide_eq_false_2 in * by lia. done.
Qed.

(** [process_turns] at a table of fewer than two players raises
    [ValueError] and changes nothing.  When it returns, at a table of
    distinct players holding cards with the button on a seat, every seated
    player has [pre_swap_card] set and [orig_card] as before; a player who
    was not the target of a swap has as [pre_swap_card] the card held when
    the turns began, and a player who did not attempt to swap still holds
    [pre_swap_card]. *)
Theorem process_turns_records st :
  (Z.of_nat (length (players st)) < 2 →
     process_turns st = (inl ValueError, st)) ∧
  ∀ st', NoDup (players st) → all_hold st → closed_system st →
    0 ≤ dealer_button st < Z.of_nat (length (players st)) →
    process_turns st = (inr tt, st') →
    ∀ p, p ∈ players st →
      orig_card (store st' p) = orig_card (store st p) ∧
      is_Some (pre_swap_card (store st' p)) ∧
      (target_of_swap (store st' p) = false →
         pre_swap_card (store st' p) = current_card (store st p)) ∧
      (attempted_to_swap (store st' p) = false →
         current_card (store st' p) = pre_swap_card (store st' p)).
Proof.
  split.
  { intros Hn. unfold process_turns. mstep.
    destruct (Z.ltb_spec (Z.of_nat (length (players st))) 2); [done|lia]. }
  intros st' Hnd Hall Hclosed Hbtn. unfold process_turns. mstep.
  destruct (Z.ltb_spec (Z.of_nat (length (players st))) 2) as [|Hn]; [done|].
  intros Hloop p Hp.
  apply (for_each_partial
           (λ visited s, turns_taken st (Z.of_nat (length visited)) s)) in Hloop.
  - destruct Hloop as [_ Hrec].
    apply list_elem_of_lookup_1 in Hp as [a Ha].
    pose proof (lookup_lt_Some _ _ _ Ha) as Hlt.
    set (n := Z.of_nat (length (players st))) in *.
    set (b := dealer_button st) in *.
    (* the iteration at which seat [a] acts *)
    set (j := (Z.of_nat a - b - 1) `mod` n).
    assert (Hj : 0 ≤ j < n) by (apply Z.mod_pos_bound; lia).
    assert (Hseat : seat_to_act b n j = Z.of_nat a).
    { unfold seat_to_act. replace (b + j + 1) with (b + 1 + j) by lia.
      unfold j. rewrite Zplus_mod_idemp_r.
      replace (b + 1 + (Z.of_nat a - b - 1)) with (Z.of_nat a) by lia.
      apply Z.mod_small. lia. }
    destruct (Hrec j p Hj) as [Ho Hj'].
    { by rewrite Hseat, Nat2Z.id. }
    rewrite length_range in Hj'. fold n in Hj'.
    rewrite bool_decide_eq_true_2 in Hj' by lia. by split.
  - split; [by split_and!|]. intros j q Hj Hq. split; [done|].
    simpl. rewrite bool_decide_eq_false_2 by lia. done.
  - intros visited x rest s s' El Hinv Hturn.
    apply range_split in El as [-> Hx].
    rewrite length_app. simpl.
    replace (Z.of_nat (length visited + 1)) with (Z.of_nat (length visited) + 1)
      by lia.
    by apply (turns_taken_step st _ s).
Qed.

End Records.

(** Three cheaters, the button on seat 2.  Seat 0 acts first with the Two,
    the lowest card, and takes the Five of seat 1. *)
Lemma turn_swaps_with_neighbor_witness :
  ∃ st',
    turn 2 3 0
      (table_of [mkCard Hearts Two; mkCard Spades Five; mkCard Clubs Nine] 4 2)
      = (inr tt, st') ∧
    current_card (store st' 0%nat) = Some (mkCard Spades Five) ∧
    current_card (store st' 1%nat) = Some (mkCard Hearts Two) ∧
    target_of_swap (store st' 1%nat) = true.
Proof.
  destruct (turn_swaps_with_neighbor 2 3 0
              (table_of [mkCard Hearts Two; mkCard Spades Five; mkCard Clubs Nine]
                 4 2)
              0%nat 1%nat)
    as (Hswap & _).
  - reflexivity.
  - reflexivity.
  - vm_compute. discriminate.
  - discriminate.
  - destruct (Hswap (mkCard Spades Five)) as (st' & Hrun & Hc & Hn & Ht & _).
    + reflexivity.
    + reflexivity.
    + simpl. discriminate.
    + exists st'. split_and!; [done|done|by rewrite Hn|done].
Defined.

(** Two cheaters, the button on seat 1.  Seat 0 takes the Five of seat 1,
    who then draws from the deck: seat 0, never a target, has the Two it
    was dealt as [pre_swap_card]. *)
Lemma process_turns_records_witness :
  process_turns (table_of [mkCard Hearts Two; mkCard Spades Five] 4 1)
    = (inr tt,
       snd (process_turns (table_of [mkCard Hearts Two; mkCard Spades Five] 4 1))) ∧
  pre_swap_card
    (store (snd (process_turns
                   (table_of [mkCard Hearts Two; mkCard Spades Five] 4 1)))
       0%nat)
    = Some (mkCard Hearts Two).
Proof.
  assert (Hrun :
    process_turns (table_of [mkCard Hearts Two; mkCard Spades Five] 4 1)
      = (inr tt,
         snd (process_turns
                (table_of [mkCard Hearts Two; mkCard Spades Five] 4 1)))).
  { vm_compute. reflexivity. }
  split; [exact Hrun|].
  destruct (proj2 (process_turns_records
                     (table_of [mkCard Hearts Two; mkCard Spades Five] 4 1))
              _ ltac:(apply (bool_decide_unpack _); vm_compute; exact I)
              ltac:(intros p Hp; apply list_elem_of_In in Hp; vm_compute in Hp;
                    destruct Hp as [<-|[<-|[]]]; by eexists)
              ltac:(unfold closed_system;
                    apply NoDup_Permutation;
                      [apply (bool_decide_unpack _); vm_compute; exact I
                      |apply full_deck_NoDup
                      |intros c; split; [intros _; apply full_deck_complete|];
                       intros _; destruct c as [s r];
                       destruct s, r; apply (bool_decide_unpack _);
                       vm_compute; exact I])
              ltac:(simpl; lia) Hrun 0%nat
              ltac:(apply (bool_decide_unpack _); vm_compute; exact I))
    as (_ & _ & Hpre & _).
  rewrite Hpre; reflexivity.
Defined.

(** ** A strategy out of position *)

(** A loop over two lists one after the other. *)
Lemma for_each_app {Σ A} (l1 l2 : list A) (body : A → M Σ unit) (s s1 : Σ) :
  for_each l1 body s = (inr tt, s1) →
  for_each (l1 ++ l2) body s = for_each l2 body s1.
Proof.
  revert s. induction l1 as [|x l1 IH]; intros s; simpl.
  - by intros [= <-].
  - unfold bind. destruct (body x s) as [[e|[]] s0]; [done|]. apply IH.
Qed.

Lemma range_app (k n : nat) :
  (k < n)%nat →
  range n = range k ++ Z.of_nat k :: (Z.of_nat <$> seq (Datatypes.S k) (n - Datatypes.S k)).
Proof.
  intros Hk. unfold range.
  replace n with (k + Datatypes.S (n - Datatypes.S k))%nat at 1 by lia.
  rewrite seq_app, fmap_app. simpl. done.
Qed.

(** The turns before the one of a player [hero], at a table where all the
    others are cheaters, return. *)
Lemma turns_before_return (st : SYNGameState Strategy) (hero : pid) (k : nat) :
  NoDup (players st) → all_hold st → closed_system st →
  (k < length (players st))%nat →
  players st
    !! Z.to_nat (seat_to_act (dealer_button st) (Z.of_nat (length (players st)))
                   (Z.of_nat k))
    = Some hero →
  (∀ p, p ∈ players st → p ≠ hero →
     strategy (store st p) = SYNStrat_cheater_villain) →
  ∃ s, for_each (range k)
         (turn (dealer_button st) (Z.of_nat (length (players st)))) st
       = (inr tt, s) ∧
    in_round st s ∧ keeps_stakes st s.
Proof.
  intros Hnd Hall Hclosed Hk Hhero Hothers.
  set (n := Z.of_nat (length (players st))) in *.
  set (b := dealer_button st) in *.
  apply (for_each_total (λ _ s, in_round st s ∧ keeps_stakes st s)).
  - split; [done|apply keeps_stakes_refl].
  - intros visited i rest s El [Hin Hkeep].
    assert (Hi : 0 ≤ i < Z.of_nat k).
    { apply elem_of_range. rewrite El. apply elem_of_app. right. by left. }
    pose proof Hin as (Hpl & Hb & Halls & Hcloseds).
    pose proof (seat_to_act_range b n i ltac:(lia)) as Hri.
    pose proof (seat_to_act_range b n (Z.of_nat k) ltac:(lia)) as Hrk.
    destruct (lookup_lt_is_Some_2 (players st) (Z.to_nat (seat_to_act b n i)))
      as [cur Hcur]; [lia|].
    assert (Hne : cur ≠ hero).
    { intros ->. pose proof (NoDup_lookup _ _ _ _ Hnd Hcur Hhero) as E.
      assert (i = Z.of_nat k); [|lia].
      apply (seat_to_act_inj b n); lia. }
    assert (Hcin : cur ∈ players st) by (by apply list_elem_of_lookup_2 in Hcur).
    assert (Hrun : ∃ b0, strategy_run (strategy (store s cur)) cur s = inr b0).
    { destruct Hkeep as (_ & _ & Hk'). destruct (Hk' cur) as [_ ->].
      rewrite (Hothers cur Hcin Hne). unfold strategy_run. simpl.
      destruct (Halls cur) as [c Hc]; [by rewrite Hpl|].
      destruct (cheater_villain_run_lowest s cur (rank c)) as (b0 & -> & _);
        [done|by rewrite Hpl|by unfold held_rank; rewrite Hc|by eexists]. }
    destruct Hrun as [b0 Hrun].
    destruct (turn_returns b i st s cur b0) as [s' Hturn];
      [done|done| |by rewrite Hpl|done|].
    { rewrite Hpl. intros E. rewrite E in Hk. simpl in Hk. lia. }
    rewrite Hpl in Hturn. fold n in Hturn.
    exists s'. split; [done|]. split.
    + by destruct (turn_in_round _ _ _ st s s' Hnd Hin Hturn).
    + apply (keeps_stakes_trans st s); [done|]. by apply turn_keeps_stakes in Hturn.
Qed.

(** The records of the players after the first [k] turns of
    [process_turns]. *)
Lemma turns_prefix_taken {S : Type} `{!SYNStrat S} (st s : SYNGameState S)
    (k : nat) :
  NoDup (players st) → all_hold st → closed_system st →
  0 ≤ dealer_button st < Z.of_nat (length (players st)) →
  2 ≤ Z.of_nat (length (players st)) → (k ≤ length (players st))%nat →
  for_each (range k)
    (turn (dealer_button st) (Z.of_nat (length (players st)))) st = (inr tt, s) →
  turns_taken st (Z.of_nat k) s.
Proof.
  intros Hnd Hall Hclosed Hbtn Hn Hk Hloop.
  apply (for_each_partial
           (λ visited s, turns_taken st (Z.of_nat (length visited)) s)) in Hloop.
  - by rewrite length_range in Hloop.
  - split; [by split_and!|]. intros j q Hj Hq. split; [done|].
    simpl. rewrite bool_decide_eq_false_2 by lia. done.
  - intros visited x rest s0 s1 El Hinv Hturn.
    apply range_split in El as [-> Hx].
    rewrite length_app. simpl.
    replace (Z.of_nat (length visited + 1)) with (Z.of_nat (length visited) + 1)
      by lia.
    apply (turns_taken_step st _ s0); [done|done|done|lia|done|done].
Qed.

(** [SYNStrat_naive_firstonly] given to a player who is not the first to
    act, at a table of distinct players holding cards in which all the
    others are cheaters.  The turns of the players who act before that
    player are taken and return; at that player's turn [process_turns]
    raises [NotImplementedError], and the state it leaves is the one these
    turns have reached.  The round stops there: every player still holds a
    card, hands and deck are the 52 cards and no stack was touched; with
    the button on a seat, the players who have acted have their
    [pre_swap_card] recorded as [turns_taken] says, and the player whose
    strategy raised holds the card dealt unless a swap made it a
    target. *)
Theorem naive_firstonly_out_of_position (st : SYNGameState Strategy)
    (hero : pid) (k lowest_to_keep : Z) :
  NoDup (players st) → all_hold st → closed_system st →
  0 < k < Z.of_nat (length (players st)) →
  players st
    !! Z.to_nat (seat_to_act (dealer_button st) (Z.of_nat (length (players st))) k)
    = Some hero →
  strategy (store st hero) = SYNStrat_naive_firstonly lowest_to_keep →
  (∀ p, p ∈ players st → p ≠ hero →
     strategy (store st p) = SYNStrat_cheater_villain) →
  ∃ st',
    for_each (range (Z.to_nat k))
      (turn (dealer_button st) (Z.of_nat (length (players st)))) st
      = (inr tt, st') ∧
    turn (dealer_button st) (Z.of_nat (length (players st))) k st'
      = (inl NotImplementedError, st') ∧
    process_turns st = (inl NotImplementedError, st') ∧
    in_round st st' ∧ keeps_stakes st st' ∧
    (0 ≤ dealer_button st < Z.of_nat (length (players st)) →
       turns_taken st k st' ∧
       (target_of_swap (store st' hero) = false →
          current_card (store st' hero) = current_card (store st hero))).
Proof.
  intros Hnd Hall Hclosed Hk Hhero Hstrat Hothers.
  destruct (turns_before_return st hero (Z.to_nat k)) as (s & Hrun & Hin & Hkeep);
    [done|done|done|lia|by rewrite Z2Nat.id by lia|done|].
  pose proof Hin as (Hpl & Hb & Halls & _).
  assert (Hturn : turn (dealer_button st) (Z.of_nat (length (players st))) k s
                  = (inl NotImplementedError, s)).
  { set (n := Z.of_nat (length (players st))) in *.
    set (b := dealer_button st) in *.
    pose proof (seat_to_act_range b n (k + 1) ltac:(lia)) as Hrn.
    destruct (lookup_lt_is_Some_2 (players st)
                (Z.to_nat (seat_after (seat_to_act b n k) n)))
      as [next Hnext].
    { rewrite seat_after_seat_to_act by lia. lia. }
    unfold turn, player_at, take_turn. mstep. rewrite Hpl, Hhero, Hpl, Hnext.
    destruct Hkeep as (_ & _ & Hk'). destruct (Hk' hero) as [_ ->].
    rewrite Hstrat. unfold strategy_run. simpl. unfold naive_firstonly_run.
    rewrite (get_relative_pos_at s hero k);
      [|by rewrite Hpl|rewrite Hpl; lia|rewrite Hpl, Hb; exact Hhero].
    destruct (Z.eqb_spec k 0); [lia|done]. }
  exists s. split_and!; [done|done| |done|done|].
  - unfold process_turns. mstep.
    destruct (Z.ltb_spec (Z.of_nat (length (players st))) 2) as [|_]; [lia|].
    rewrite (range_app (Z.to_nat k)) by lia.
    rewrite (for_each_app _ _ _ _ _ Hrun). rewrite Z2Nat.id by lia.
    simpl. unfold bind at 1. by rewrite Hturn.
  - intros Hbtn.
    assert (Htaken : turns_taken st k s).
    { rewrite <- (Z2Nat.id k) by lia.
      apply turns_prefix_taken; [done|done|done|done|lia|lia|done]. }
    split; [done|].
    destruct Htaken as [_ Hrec]. destruct (Hrec k hero ltac:(lia) Hhero) as [_ Hh].
    by rewrite bool_decide_eq_false_2 in Hh by lia.
Qed.

(** Seat 0 plays the naive strategy and seat 1 is a cheater; with the
    button on seat 0 the cheater acts first and the naive strategy is asked
    at the second turn. *)
Lemma naive_firstonly_out_of_position_witness :
  ∃ st',
    process_turns
      (mkState [0%nat; 1%nat]
         (store_of [seated (SYNStrat_naive_firstonly 5) 4 (Some (mkCard Hearts Two));
                    seated SYNStrat_cheater_villain 4 (Some (mkCard Spades Five))])
         0 0 (filter (λ c, c ∉ [mkCard Hearts Two; mkCard Spades Five]) full_deck)
         King [])
    = (inl NotImplementedError, st').
Proof.
  destruct (naive_firstonly_out_of_position
              (mkState [0%nat; 1%nat]
                 (store_of [seated (SYNStrat_naive_firstonly 5) 4
                              (Some (mkCard Hearts Two));
                            seated SYNStrat_cheater_villain 4
                              (Some (mkCard Spades Five))])
                 0 0
                 (filter (λ c, c ∉ [mkCard Hearts Two; mkCard Spades Five])
                    full_deck)
                 King [])
              0%nat 1 5)
    as (st' & _ & _ & Hrun & _).
  - apply (bool_decide_unpack _). vm_compute. exact I.
  - intros p Hp. apply list_elem_of_In in Hp. vm_compute in Hp.
    destruct Hp as [<-|[<-|[]]]; by eexists.
  - unfold closed_system.
    apply NoDup_Permutation; [| apply full_deck_NoDup |].
    + apply (bool_decide_unpack _). vm_compute. exact I.
    + intros c. split; [intros _; apply full_deck_complete|].
      intros _. destruct c as [s r].
      destruct s, r; apply (bool_decide_unpack _); vm_compute; exact I.
  - simpl. lia.
  - reflexivity.
  - reflexivity.
  - intros p Hp Hne. apply list_elem_of_In in Hp. vm_compute in Hp.
    destruct Hp as [<-|[<-|[]]]; [done|reflexivity].
  - by exists st'.
Defined.

(** ** A game without a database *)

Section NoDatabase.
Context {S : Type} `{!SYNStrat S}.
Implicit Types (st : SYNGameState S) (p : pid).

Lemma held_cards_length st :
  all_hold st → length (held_cards st) = length (players st).
Proof.
  unfold all_hold, held_cards. induction (players st) as [|p l IH]; [done|].
  intros Hall. destruct (Hall p) as [c Hc]; [by left|].
  csimpl. rewrite Hc. simpl. f_equal. apply IH. intros q Hq. apply Hall. by right.
Qed.

(** The game of [SYNGame(name, None)], in which [__init__] has assigned no
    attribute [database]: a round at a table of distinct players whose
    deal and turns return is settled and then ends with [AttributeError],
    before the collection and the advance.  The cards stay in the hands,
    so the deck lacks one card for each player and the button has not
    moved; every further round, with or without a database, raises
    [AssertionError] at its deal and changes nothing. *)
Theorem play_a_round_without_database (rng : list Card → list Card)
    (practice_round : bool) st st1 st2 :
  NoDup (players st) → deck st ≡ₚ full_deck → (∀ d, rng d ≡ₚ d) →
  start_round rng st = (inr tt, st1) →
  process_turns st1 = (inr tt, st2) →
  ∃ low losers st3,
    calculate_results practice_round st2 = (inr (low, losers), st3) ∧
    play_a_round database_unset rng practice_round st
      = (inl AttributeError, st3) ∧
    all_hold st3 ∧ closed_system st3 ∧
    players st3 = players st ∧ dealer_button st3 = dealer_button st ∧
    (length (deck st3) + length (players st) = 52)%nat ∧
    ∀ database' rng' practice_round',
      play_a_round database' rng' practice_round' st3
        = (inl AssertionError, st3).
Proof.
  intros Hnd Hfull Hrng Hstart Hturns.
  destruct (start_round_deals rng st st1 Hnd Hfull Hrng Hstart)
    as (Hpl1 & Hbtn1 & Hlos1 & Hall1 & Hc1).
  assert (Hnd1 : NoDup (players st1)) by (by rewrite Hpl1).
  destruct (process_turns_in_round st1 st2 Hnd1 Hall1 Hc1 Hturns)
    as ((Hpl2 & Hbtn2 & Hall2 & Hc2) & Hlos2 & Hn).
  destruct (calculate_results_in_round practice_round st2 Hall2 Hc2)
    as (low & losers & st3 & Hres & Hlos3 & (Hpl3 & Hbtn3 & Hall3 & Hc3)).
  { by rewrite Hlos2. }
  assert (Hset : set_cur_losers losers st3 = st3).
  { rewrite <- Hlos3. by destruct st3. }
  assert (Hlen : (length (deck st3) + length (players st) = 52)%nat).
  { pose proof (held_cards_length st3 Hall3) as Hh.
    unfold closed_system in Hc3. apply Permutation_length in Hc3.
    rewrite length_app, full_deck_length in Hc3.
    rewrite Hpl3, Hpl2, Hpl1 in Hh. lia. }
  exists low, losers, st3. split_and!; try done.
  - unfold play_a_round. mstep. rewrite Hstart, Hturns, Hres.
    by rewrite Hset.
  - congruence.
  - congruence.
  - intros database' rng' practice_round'.
    unfold play_a_round, start_round. mstep.
    rewrite bool_decide_eq_false_2; [done|]. rewrite Hpl1 in Hn. lia.
Qed.

End NoDatabase.

(** The first round of two cheaters in a game built without a database:
    it ends with [AttributeError] and leaves 50 cards in the deck. *)
Lemma play_a_round_without_database_witness :
  ∃ st3,
    play_a_round database_unset id true (fresh_table 2 4 1)
      = (inl AttributeError, st3) ∧
    length (deck st3) = 50%nat ∧
    play_a_round database_None id true st3 = (inl AssertionError, st3).
Proof.
  destruct (play_a_round_without_database id true (fresh_table 2 4 1)
              (snd (start_round id (fresh_table 2 4 1)))
              (snd (process_turns (snd (start_round id (fresh_table 2 4 1))))))
    as (low & losers & st3 & _ & Hround & _ & _ & _ & _ & Hlen & Hnext).
  - apply (bool_decide_unpack _). vm_compute. exact I.
  - reflexivity.
  - intros d. reflexivity.
  - vm_compute. reflexivity.
  - vm_compute. reflexivity.
  - exists st3. split_and!; [done|simpl in Hlen; lia|apply Hnext].
Defined.
